(** * Payment promises: signing chain and settlement encoding

    A shallow embedding of the Go packages of the payments repository that
    build, sign and clear payment promises:

    - [promises] (promise.go): [Promise], [HashBytes], [SignByPayer],
      [SignByReceiver];
    - [promises] (clearing.go): [ClearReceivedPromise];
    - [bindings] (ChannelImplementation.go): the [FinalizeExit] and
      [RequestExit] transactors.

    Go values are modelled as follows.  A byte slice or byte array is a
    [list byte]; an [int64] and a [*big.Int] are a [Z]; a Go [error] is its
    message; a Go result pair [(v, err)] is a pair whose second component is
    [None] for a nil error; a pointer result is an [option].  Calls that
    leave the process (the ledger contract) are threaded through an explicit
    state, the log of submitted calls. *)

From Stdlib Require Import ZArith Lia String Ascii.
From Stdlib Require Import Strings.Byte.
From stdpp Require Import base list.

Local Open Scope Z_scope.

(** ** Bytes *)

Definition bytes := list byte.

(** The byte holding [z mod 256]. *)
Definition byte_of_Z (z : Z) : byte :=
  match Byte.of_N (Z.to_N (z mod 256)) with
  | Some b => b
  | None => x00
  end.

Definition Z_of_byte (b : byte) : Z := Z.of_N (Byte.to_N b).

(** [[]byte(s)] for a string constant. *)
Definition bytes_of_string (s : string) : bytes := list_byte_of_string s.

(** Go's builtin [copy(dst, src)]: overwrites the first
    [min(len(dst), len(src))] elements of [dst]; the result is [dst] after
    the call. *)
Definition copy (dst src : bytes) : bytes :=
  let n := Nat.min (length dst) (length src) in
  take n src ++ drop n dst.

(** [copy(arr[lo:hi], src)] seen from the array [arr]. *)
Definition copy_slice (arr : bytes) (lo hi : nat) (src : bytes) : bytes :=
  take lo arr ++ copy (take (hi - lo) (drop lo arr)) src ++ drop hi arr.

(** [var a [n]byte]: the zero value of a byte array. *)
Definition zero_array (n : nat) : bytes := replicate n x00.

(** ** Big integers and their 256-bit encoding (math/big, go-ethereum) *)

(** [math.ReadBits(x, buf)] with [len(buf) = n], for the absolute value [x]
    of the integer: its [n] low-order bytes, most significant first. *)
Fixpoint ReadBits (n : nat) (x : Z) : bytes :=
  match n with
  | O => []
  | S m => ReadBits m (x / 256) ++ [byte_of_Z x]
  end.

(** [x.BitLen()]: the length of the absolute value in bits, 0 for 0. *)
Definition BitLen (x : Z) : Z :=
  if Z.abs x =? 0 then 0 else Z.log2 (Z.abs x) + 1.

(** [x.Bytes()]: the absolute value, big-endian, without leading zeros. *)
Definition big_Bytes (x : Z) : bytes :=
  ReadBits (Z.to_nat ((BitLen x + 7) / 8)) (Z.abs x).

(** [math.PaddedBigBytes(x, n)]. *)
Definition PaddedBigBytes (x : Z) (n : Z) : bytes :=
  if n <=? BitLen x / 8 then big_Bytes x else ReadBits (Z.to_nat n) (Z.abs x).

Definition tt256m1 : Z := 2 ^ 256 - 1.

(** [math.U256(x)]: [x & (2^256 - 1)], two's complement for a negative [x]. *)
Definition math_U256 (x : Z) : Z := Z.land x tt256m1.

(** [abi.U256(n)]. *)
Definition U256 (n : Z) : bytes := PaddedBigBytes (math_U256 n) 32.

(** [big.NewInt(x)] for an [int64] [x]. *)
Definition big_NewInt (x : Z) : Z := x.

(** The value a big-endian byte string denotes. *)
Definition decode_be (bs : bytes) : Z :=
  fold_left (fun acc b => acc * 256 + Z_of_byte b) bs 0.

(** The spec's encoding of a field: 32 bytes, big-endian, of an unsigned
    256-bit value. *)
Definition encode_uint256_be (v : Z) : bytes := ReadBits 32 (v mod 2 ^ 256).

(** ** Go results *)

(** A Go [error], by its message; [None] in a result is the nil error. *)
Definition error := string.

(** ** External packages *)

(** [common.Address] is a [[20]byte]; [Bytes()] returns its content. *)
Definition Address := bytes.

Definition Address_Bytes (a : Address) : bytes := a.

Definition wf_Address (a : Address) : Prop := length a = 20%nat.

(** go-ethereum's [crypto] package, as far as promise.go calls it.  The
    hash function and the curve are left open: a model of them is an
    instance of this class. *)
Class Crypto := {
  (** [*ecdsa.PrivateKey] and [ecdsa.PublicKey] *)
  ecdsa_PrivateKey : Type;
  ecdsa_PublicKey : Type;
  (** the [PublicKey] field a private key embeds *)
  PublicKeyOf : ecdsa_PrivateKey -> ecdsa_PublicKey;
  (** the Keccak-256 digest of one byte string *)
  keccak : bytes -> bytes;
  (** [crypto.Sign(hash, prv) (sig []byte, err error)] *)
  Sign : bytes -> ecdsa_PrivateKey -> bytes * option error;
  (** [crypto.Ecrecover(hash, sig) ([]byte, error)] *)
  Ecrecover : bytes -> bytes -> bytes * option error;
  (** [crypto.ToECDSAPub(pub) *ecdsa.PublicKey] *)
  ToECDSAPub : bytes -> ecdsa_PublicKey;
  (** [crypto.PubkeyToAddress(p) common.Address] *)
  PubkeyToAddress : ecdsa_PublicKey -> Address
}.

(** [crypto.Keccak256(data ...[]byte)] writes every argument into one hash
    state: the digest of their concatenation. *)
Definition Keccak256 `{Crypto} (data : list bytes) : bytes :=
  keccak (concat data).

(** [registry.MystIdentity], as far as it is used: the key it holds. *)
Record MystIdentity `{Crypto} := {
  PrivateKey : ecdsa_PrivateKey
}.

(** ** promise.go *)

Record Promise := {
  Receiver : Address;
  SeqNo : Z;
  Amount : Z
}.

(** An [int64] field holds a value of this range. *)
Definition int64_range (x : Z) : Prop := - 2 ^ 63 <= x < 2 ^ 63.

Definition issuerPrefix : string := "Issuer prefix:".

Definition HashBytes `{Crypto} (p : Promise) : bytes :=
  Keccak256 [bytes_of_string issuerPrefix;
             Address_Bytes (Receiver p);
             U256 (big_NewInt (SeqNo p));
             U256 (big_NewInt (Amount p))].

(** The struct embeds [Promise]; its fields and methods are promoted. *)
Record IssuedPromise := {
  embedded_Promise : Promise;
  IssuerSignature : bytes
}.

Record ReceivedPromise := {
  embedded_IssuedPromise : IssuedPromise;
  ReceiverSignature : bytes
}.

Definition SignByPayer `{Crypto} (promise : Promise) (payer : MystIdentity)
  : option IssuedPromise * option error :=
  let hash := HashBytes promise in
  let '(signature, err) := Sign hash (PrivateKey payer) in
  match err with
  | Some e => (None, Some e)
  | None =>
      (Some {| embedded_Promise := promise; IssuerSignature := signature |},
       None)
  end.

Definition receiverPrefix : string := "Receiver prefix:".

Definition SignByReceiver `{Crypto} (promise : IssuedPromise)
  (receiver : MystIdentity) : option ReceivedPromise * option error :=
  let '(publicKey, err) :=
    Ecrecover (HashBytes (embedded_Promise promise))
              (IssuerSignature promise) in
  match err with
  | Some e => (None, Some e)
  | None =>
      let pubKey := ToECDSAPub publicKey in
      let payerAddr := PubkeyToAddress pubKey in
      let hash := Keccak256 [bytes_of_string receiverPrefix;
                             HashBytes (embedded_Promise promise);
                             Address_Bytes payerAddr] in
      (* the error of this call is assigned and never read *)
      let '(sig, err) := Sign hash (PrivateKey receiver) in
      (Some {| embedded_IssuedPromise := promise; ReceiverSignature := sig |},
       None)
  end.

(** The steps of the signing chain, named as the spec names them. *)

(** [recoverAddress(hash, signature)]: the address behind the key that
    [Ecrecover] returns. *)
Definition recoverAddress `{Crypto} (hash sig : bytes)
  : Address * option error :=
  let '(publicKey, err) := Ecrecover hash sig in
  match err with
  | Some e => ([], Some e)
  | None => (PubkeyToAddress (ToECDSAPub publicKey), None)
  end.

(** [addressOf(k)]: the address of the public key a private key embeds. *)
Definition addressOf `{Crypto} (k : ecdsa_PrivateKey) : Address :=
  PubkeyToAddress (PublicKeyOf k).

(** [h2 = hash(COUNTERSIGN_PREFIX, h1, payerAddress)]. *)
Definition counterSignHash `{Crypto} (h1 : bytes) (payerAddress : Address)
  : bytes :=
  Keccak256 [bytes_of_string receiverPrefix; h1; Address_Bytes payerAddress].

(** ** clearing.go *)

(** [identity.DecomposedSignature], with its fields [V], [R] and [S]. *)
Record DecomposedSignature := {
  sig_V : byte;
  sig_R : bytes;
  sig_S : bytes
}.

(** The arguments of one [ClearPromise] call of the contract session, in
    the order of the call. *)
Record ClearPromiseCall := {
  call_packedAddressAndSigns : bytes;
  call_extraDataHash : bytes;
  call_seqNo : Z;
  call_amount : Z;
  call_issuerR : bytes;
  call_issuerS : bytes;
  call_receiverR : bytes;
  call_receiverS : bytes
}.

(** What clearing.go uses and the sources do not hold: the signature codec
    of package [identity], the promise's [ConsumerHash] method, and the
    ledger behind the generated session, which answers a call given the
    calls submitted before it. *)
Class ClearingDeps := {
  DecomposeSignature : bytes -> DecomposedSignature * option error;
  ConsumerHash : ReceivedPromise -> bytes;
  ledgerReply : list ClearPromiseCall -> ClearPromiseCall -> option error
}.

(** Code that talks to a ledger runs in a state monad; for the promise
    clearing session the state is the log of the calls submitted so far. *)
Definition State (St A : Type) : Type := St -> A * St.

Definition ret {St A} (a : A) : State St A := fun st => (a, st).

Definition bind {St A B} (m : State St A) (k : A -> State St B)
  : State St B :=
  fun st => let '(a, st') := m st in k a st'.

Notation "'do' x <- m ; k" := (bind m (fun x => k))
  (at level 10, x name, m at level 100, k at level 200).

Definition Session (A : Type) : Type := State (list ClearPromiseCall) A.

(** [pc.ClearPromise(...)]: submits the call; the transaction it returns is
    dropped by the caller, the error is the ledger's answer. *)
Definition ClearPromise `{ClearingDeps} (c : ClearPromiseCall)
  : Session (option error) :=
  fun log => (ledgerReply log c, log ++ [c]).

Definition ClearReceivedPromise `{ClearingDeps} (promise : ReceivedPromise)
  : Session (option error) :=
  let '(issuerSig, err) :=
    DecomposeSignature (IssuerSignature (embedded_IssuedPromise promise)) in
  match err with
  | Some e => ret (Some e)
  | None =>
      let '(receiverSig, err) :=
        DecomposeSignature (ReceiverSignature promise) in
      match err with
      | Some e => ret (Some e)
      | None =>
          let p := embedded_Promise (embedded_IssuedPromise promise) in
          let packedAddressAndSigns := zero_array 32 in
          let addressAndSigns :=
            [sig_V issuerSig; sig_V receiverSig] ++ Address_Bytes (Receiver p) in
          let packedAddressAndSigns :=
            copy_slice packedAddressAndSigns 10 32 addressAndSigns in
          let extraDataHash := zero_array 32 in
          let extraDataHash :=
            copy_slice extraDataHash 0 32 (ConsumerHash promise) in
          do err <- ClearPromise
                   {| call_packedAddressAndSigns := packedAddressAndSigns;
                      call_extraDataHash := extraDataHash;
                      call_seqNo := big_NewInt (SeqNo p);
                      call_amount := big_NewInt (Amount p);
                      call_issuerR := sig_R issuerSig;
                      call_issuerS := sig_S issuerSig;
                      call_receiverR := sig_R receiverSig;
                      call_receiverS := sig_S receiverSig |};
          ret err
      end
  end.

(** ** bindings/ChannelImplementation.go *)

#[global] Instance byte_eq_decision : EqDecision byte := Byte.byte_eq_dec.

(** A parameter of a contract call, by its ABI type. *)
Inductive abi_value :=
| abi_address (a : Address)
| abi_uint256 (n : Z)
| abi_bytes (b : bytes).

(** [bind.TransactOpts], as far as the exit flow reads it: the sender. *)
Record TransactOpts := {
  From : Address
}.

(** [types.Transaction]: the method called and its parameters. *)
Record Transaction := {
  tx_method : string;
  tx_params : list abi_value
}.

(** Modelled from the spec: the errors of its taxonomy (section 7) that the
    exit flow returns; the sources define neither. *)
Definition ExitNotMatured : error := "ExitNotMatured"%string.
Definition InvalidSignatureError : error := "InvalidSignatureError"%string.

(** Modelled from the spec: the exit request the ledger's channel contract
    holds (section 3, [ChannelExitRequest]); the contract is in the sources
    as compiled bytecode only. *)
Record ChannelExitRequest := {
  beneficiary : Address;
  validUntil : Z;
  timelockExpiry : Z;
  signature : bytes
}.

(** Modelled from the spec: the state of the channel contract that the exit
    flow of section 4.6 reads and writes: the operator whose key authorises
    an exit, the length of the timelock, the funds held, the outstanding
    exit request (at most one) and the payouts made, latest last. *)
Record Channel := {
  operator : Address;
  timelockDelay : Z;
  funds : Z;
  exitRequest : option ChannelExitRequest;
  payouts : list (Address * Z)
}.

(** Modelled from the spec: the ledger as a transaction sees it, the current
    time and the channel contract's state. *)
Record Chain := {
  now : Z;
  channel : Channel
}.

Definition at_time (t : Z) (c : Chain) : Chain :=
  {| now := t; channel := channel c |}.

(** Modelled from the spec: the prefix tag of the exit hash ("its own
    domain-separated hash"); the spec does not give its bytes. *)
Definition exitPrefix : string := "Exit request:".

(** Modelled from the spec: the hash an exit request is signed over,
    [(beneficiary, validUntil)] under the exit prefix. *)
Definition exitHash `{Crypto} (b : Address) (vu : Z) : bytes :=
  Keccak256 [bytes_of_string exitPrefix; Address_Bytes b; U256 vu].

(** Modelled from the spec: the contract's [requestExit] (section 4.6).  A
    request whose signature recovers to the channel operator is accepted;
    acceptance starts the timelock and supersedes an outstanding request.
    A rejected request leaves the channel as it was. *)
Definition requestExit `{Crypto} (t : Z) (b : Address) (vu : Z)
  (sig : bytes) (ch : Channel) : Channel * option error :=
  let '(signer, err) := recoverAddress (exitHash b vu) sig in
  match err with
  | Some _ => (ch, Some InvalidSignatureError)
  | None =>
      if bool_decide (signer = operator ch) then
        ({| operator := operator ch;
            timelockDelay := timelockDelay ch;
            funds := funds ch;
            exitRequest :=
              Some {| beneficiary := b; validUntil := vu;
                      timelockExpiry := t + timelockDelay ch;
                      signature := sig |};
            payouts := payouts ch |}, None)
      else (ch, Some InvalidSignatureError)
  end.

(** Modelled from the spec: the contract's [finalizeExit] (section 4.6).
    Before the expiry of the timelock, and when no exit was requested, it
    fails with [ExitNotMatured]; from the expiry on it pays the funds out to
    the requested beneficiary and closes the request. *)
Definition finalizeExit (t : Z) (ch : Channel) : Channel * option error :=
  match exitRequest ch with
  | None => (ch, Some ExitNotMatured)
  | Some r =>
      if t <? timelockExpiry r then (ch, Some ExitNotMatured)
      else
        ({| operator := operator ch;
            timelockDelay := timelockDelay ch;
            funds := 0;
            exitRequest := None;
            payouts := payouts ch ++ [(beneficiary r, funds ch)] |}, None)
  end.

Module ChannelImplementation.

(** Modelled from the spec: [bind.BoundContract.Transact] on the channel
    contract.  The transaction runs the contract method it names at the
    current time; a failing method is returned as the call's error and
    leaves the ledger as it was. *)
Definition Transact `{Crypto} (opts : TransactOpts) (method : string)
  (params : list abi_value) : State Chain (option Transaction * option error) :=
  fun c =>
    let run (r : Channel * option error) :=
      match r with
      | (ch, None) =>
          ((Some {| tx_method := method; tx_params := params |}, None),
           {| now := now c; channel := ch |})
      | (_, Some e) => ((None, Some e), c)
      end in
    if String.eqb method "finalizeExit" then
      match params with
      | [] => run (finalizeExit (now c) (channel c))
      | _ => ((None, Some "argument count mismatch"%string), c)
      end
    else if String.eqb method "requestExit" then
      match params with
      | [abi_address b; abi_uint256 vu; abi_bytes sig] =>
          run (requestExit (now c) b vu sig (channel c))
      | _ => ((None, Some "argument count mismatch"%string), c)
      end
    else ((None, Some "method not found"%string), c).

(** [ChannelImplementationSession] and
    [ChannelImplementationTransactorSession]: the transaction options
    pre-set for every call. *)
Record ChannelImplementationSession := {
  Session_TransactOpts : TransactOpts
}.

(** [ChannelImplementationTransactor.FinalizeExit]. *)
Definition FinalizeExit `{Crypto} (opts : TransactOpts)
  : State Chain (option Transaction * option error) :=
  Transact opts "finalizeExit" [].

(** [ChannelImplementationSession.FinalizeExit] and
    [ChannelImplementationTransactorSession.FinalizeExit]. *)
Definition Session_FinalizeExit `{Crypto} (s : ChannelImplementationSession)
  : State Chain (option Transaction * option error) :=
  FinalizeExit (Session_TransactOpts s).

(** [ChannelImplementationTransactor.RequestExit]. *)
Definition RequestExit `{Crypto} (opts : TransactOpts)
  (_beneficiary : Address) (_validUntil : Z) (_signature : bytes)
  : State Chain (option Transaction * option error) :=
  Transact opts "requestExit"
    [abi_address _beneficiary; abi_uint256 _validUntil;
     abi_bytes _signature].

(** [ChannelImplementationSession.RequestExit] and
    [ChannelImplementationTransactorSession.RequestExit]. *)
Definition Session_RequestExit `{Crypto} (s : ChannelImplementationSession)
  (_beneficiary : Address) (_validUntil : Z) (_signature : bytes)
  : State Chain (option Transaction * option error) :=
  RequestExit (Session_TransactOpts s) _beneficiary _validUntil _signature.

End ChannelImplementation.

(** ** The settlement call and the exit calls, as values *)

(** The arguments [ClearReceivedPromise] hands to [ClearPromise] for a
    promise whose signatures decomposed into [issuerSig] and
    [receiverSig]. *)
Definition settlementCall `{ClearingDeps} (promise : ReceivedPromise)
  (issuerSig receiverSig : DecomposedSignature) : ClearPromiseCall :=
  let p := embedded_Promise (embedded_IssuedPromise promise) in
  {| call_packedAddressAndSigns :=
       copy_slice (zero_array 32) 10 32
         ([sig_V issuerSig; sig_V receiverSig] ++ Address_Bytes (Receiver p));
     call_extraDataHash :=
       copy_slice (zero_array 32) 0 32 (ConsumerHash promise);
     call_seqNo := big_NewInt (SeqNo p);
     call_amount := big_NewInt (Amount p);
     call_issuerR := sig_R issuerSig;
     call_issuerS := sig_S issuerSig;
     call_receiverR := sig_R receiverSig;
     call_receiverS := sig_S receiverSig |}.

(** The packed word as the spec lays it out: 10 zero bytes, the issuer's
    [v], the counter-signer's [v], the beneficiary address. *)
Definition packedWord (issuerV counterV : byte) (a : Address) : bytes :=
  replicate 10 x00 ++ [issuerV; counterV] ++ Address_Bytes a.

(** One [requestExit] transaction: the ledger time it runs at, its sender
    options and its arguments. *)
Record ExitCall := {
  exit_time : Z;
  exit_opts : TransactOpts;
  exit_beneficiary : Address;
  exit_validUntil : Z;
  exit_signature : bytes
}.

(** Runs a sequence of [RequestExit] transactions, each at its time, and
    keeps the last one the ledger accepted ([last] before the run). *)
Fixpoint requestExits `{Crypto} (calls : list ExitCall) (c : Chain)
  (last : option ExitCall) : Chain * option ExitCall :=
  match calls with
  | [] => (c, last)
  | call :: rest =>
      match ChannelImplementation.RequestExit (exit_opts call)
              (exit_beneficiary call) (exit_validUntil call)
              (exit_signature call) (at_time (exit_time call) c) with
      | ((_, None), c') => requestExits rest c' (Some call)
      | ((_, Some _), c') => requestExits rest c' last
      end
  end.

(** The channel a run of exit requests started from, with the request
    [last] outstanding. *)
Definition with_exit_request (c0 : Chain) (t : Z)
  (last : option ExitCall) : Chain :=
  {| now := t;
     channel :=
       match last with
       | None => channel c0
       | Some l =>
           {| operator := operator (channel c0);
              timelockDelay := timelockDelay (channel c0);
              funds := funds (channel c0);
              exitRequest :=
                Some {| beneficiary := exit_beneficiary l;
                        validUntil := exit_validUntil l;
                        timelockExpiry :=
                          exit_time l + timelockDelay (channel c0);
                        signature := exit_signature l |};
              payouts := payouts (channel c0) |}
       end |}.

(** ** A small instance to run the definitions on

    A stand-in for the curve and the hash, with the shapes of the real ones
    (32-byte digests, 65-byte signatures, keys rejected when out of range);
    it is not a secure scheme. *)

Definition demo_keccak (data : bytes) : bytes := ReadBits 32 (decode_be data).

Definition demo_Sign (h : bytes) (k : Z) : bytes * option error :=
  if bool_decide (length h = 32%nat) && (0 <? k)
  then (h ++ ReadBits 32 k ++ [byte_of_Z (27 + k mod 2)], None)
  else ([], Some "invalid private key"%string).

Definition demo_Ecrecover (h sig : bytes) : bytes * option error :=
  if bool_decide (length sig = 65%nat)
  then (take 32 (drop 32 sig), None)
  else ([], Some "invalid signature length"%string).

#[local] Instance demoCrypto : Crypto := {|
  ecdsa_PrivateKey := Z;
  ecdsa_PublicKey := bytes;
  PublicKeyOf := fun k => ReadBits 32 k;
  keccak := demo_keccak;
  Sign := demo_Sign;
  Ecrecover := demo_Ecrecover;
  ToECDSAPub := fun pub => pub;
  PubkeyToAddress := fun p => drop 12 p
|}.

(** The 65-byte layout R, S, V of the spec's signature codec. *)
Definition demo_DecomposeSignature (sig : bytes)
  : DecomposedSignature * option error :=
  if bool_decide (length sig = 65%nat)
  then ({| sig_V := nth 64 sig x00;
           sig_R := take 32 sig;
           sig_S := take 32 (drop 32 sig) |}, None)
  else ({| sig_V := x00; sig_R := []; sig_S := [] |},
        Some "MalformedSignatureError"%string).

(** A ledger that accepts every call. *)
#[local] Instance demoDeps : ClearingDeps := {|
  DecomposeSignature := demo_DecomposeSignature;
  ConsumerHash := fun promise => demo_keccak (ReceiverSignature promise);
  ledgerReply := fun _ _ => None
|}.

Definition demoReceiver : Address := replicate 20 xaa.

Definition demoPromise (seq amount : Z) : Promise :=
  {| Receiver := demoReceiver; SeqNo := seq; Amount := amount |}.

Definition demoPayer : MystIdentity := {| PrivateKey := 11 : Z |}.
Definition demoAgent : MystIdentity := {| PrivateKey := 24 : Z |}.
(** An identity whose key the signing primitive rejects. *)
Definition demoBadAgent : MystIdentity := {| PrivateKey := 0 : Z |}.

Definition demoIssued (seq amount : Z) : IssuedPromise :=
  {| embedded_Promise := demoPromise seq amount;
     IssuerSignature :=
       fst (Sign (HashBytes (demoPromise seq amount)) (PrivateKey demoPayer)) |}.

Definition demoReceived (seq amount : Z) : ReceivedPromise :=
  {| embedded_IssuedPromise := demoIssued seq amount;
     ReceiverSignature :=
       fst (Sign (counterSignHash (HashBytes (demoPromise seq amount))
                    (addressOf (PrivateKey demoPayer)))
              (PrivateKey demoAgent)) |}.

(** The two signatures of [demoReceived seq amount], decomposed. *)
Definition demoIssuerSig (seq amount : Z) : DecomposedSignature :=
  fst (DecomposeSignature (IssuerSignature (demoIssued seq amount))).

Definition demoReceiverSig (seq amount : Z) : DecomposedSignature :=
  fst (DecomposeSignature (ReceiverSignature (demoReceived seq amount))).

(** The call [ClearReceivedPromise] submits for [demoReceived seq amount]. *)
Definition demoCall (seq amount : Z) : ClearPromiseCall :=
  settlementCall (demoReceived seq amount)
    (demoIssuerSig seq amount) (demoReceiverSig seq amount).

(** The key [Ecrecover] returns for the issuer signature of
    [demoIssued seq amount]. *)
Definition demoRecovered (seq amount : Z) : bytes :=
  fst (Ecrecover (HashBytes (demoPromise seq amount))
         (IssuerSignature (demoIssued seq amount))).

(** A co-signed promise whose counter-signature lost a byte. *)
Definition demoTruncated : ReceivedPromise :=
  {| embedded_IssuedPromise := demoIssued 1 1000;
     ReceiverSignature := replicate 64 x00 |}.

(** A channel operated by the payer's key, holding 1000, at time 100 with
    a timelock of 50. *)
Definition demoChain : Chain :=
  {| now := 100;
     channel := {| operator := addressOf (PrivateKey demoPayer);
                   timelockDelay := 50;
                   funds := 1000;
                   exitRequest := None;
                   payouts := [] |} |}.

Definition demoOpts : TransactOpts := {| From := demoReceiver |}.

(** An exit request signed by the operator, sent at time 100. *)
Definition demoExit : ExitCall :=
  {| exit_time := 100;
     exit_opts := demoOpts;
     exit_beneficiary := demoReceiver;
     exit_validUntil := 120;
     exit_signature :=
       fst (Sign (exitHash demoReceiver 120) (PrivateKey demoPayer)) |}.

(** A later exit request, for another beneficiary, signed by another key. *)
Definition demoForgedExit : ExitCall :=
  {| exit_time := 110;
     exit_opts := demoOpts;
     exit_beneficiary := replicate 20 xbb;
     exit_validUntil := 130;
     exit_signature :=
       fst (Sign (exitHash (replicate 20 xbb) 130) (PrivateKey demoAgent)) |}.

(** ** What the signing steps hash *)

(** The byte string [HashBytes] digests. *)
Definition promisePreimage (p : Promise) : bytes :=
  concat [bytes_of_string issuerPrefix;
          Address_Bytes (Receiver p);
          U256 (big_NewInt (SeqNo p));
          U256 (big_NewInt (Amount p))].

(** The byte string [SignByReceiver] digests before it signs. *)
Definition counterSignPreimage (h1 : bytes) (payerAddr : Address) : bytes :=
  concat [bytes_of_string receiverPrefix; h1; Address_Bytes payerAddr].

(** A promise as its Go type has it: a 20-byte receiver and two [int64]. *)
Definition wf_Promise (p : Promise) : Prop :=
  wf_Address (Receiver p) /\ int64_range (SeqNo p) /\ int64_range (Amount p).

(** ** balances.go *)

Module balances.

(** The arguments of one [Withdraw] call of the contract session. *)
Record WithdrawCall := {
  call_amount : Z;
  call_V : byte;
  call_R : bytes;
  call_S : bytes
}.

(** What balances.go uses and the sources do not hold: the signature codec
    of package [registry] and the ledger behind the generated session. *)
Class BalancesDeps := {
  DecomposeSignature : bytes -> DecomposedSignature * option error;
  withdrawReply : list WithdrawCall -> WithdrawCall -> option error
}.

Record WithdrawRequest := {
  Amount : Z;
  Signature : DecomposedSignature
}.

Definition withDrawPrefix : string := "Withdraw request:".

(** [abi.U256(bigAmount)] returns the bytes and, as [math.U256] works in
    place, leaves the masked value in [bigAmount]; the request holds that
    same [*big.Int]. *)
Definition NewWithdrawRequest `{Crypto} `{BalancesDeps}
  (identity : MystIdentity) (amount : Z)
  : option WithdrawRequest * option error :=
  let bigAmount := big_NewInt amount in
  let amountBytes := U256 bigAmount in
  let bigAmount := math_U256 bigAmount in
  let '(signature, err) :=
    Sign (Keccak256 [bytes_of_string withDrawPrefix; amountBytes])
         (PrivateKey identity) in
  match err with
  | Some e => (None, Some e)
  | None =>
      let '(decomposed, err) := DecomposeSignature signature in
      match err with
      | Some e => (None, Some e)
      | None =>
          (Some {| Amount := bigAmount; Signature := decomposed |}, None)
      end
  end.

(** [balances.IdentityBalancesSession.Withdraw(...)]: submits the call and
    answers with the ledger's error. *)
Definition session_Withdraw `{BalancesDeps} (c : WithdrawCall)
  : State (list WithdrawCall) (option error) :=
  fun log => (withdrawReply log c, log ++ [c]).

(** The transaction is printed and dropped; the named result [err] is what
    the session call returned. *)
Definition Withdraw `{BalancesDeps} (request : WithdrawRequest)
  : State (list WithdrawCall) (option error) :=
  let signature := Signature request in
  do err <- session_Withdraw
              {| call_amount := Amount request;
                 call_V := sig_V signature;
                 call_R := sig_R signature;
                 call_S := sig_S signature |};
  ret err.

(** The byte string [NewWithdrawRequest] digests before it signs. *)
Definition withdrawPreimage (amount : Z) : bytes :=
  concat [bytes_of_string withDrawPrefix; U256 (big_NewInt amount)].

End balances.

(** ** clearing.go: registration of identities *)

(** [registry.RegistrationData], as far as it is read. *)
Record PublicKeyParts := {
  Part1 : bytes;
  Part2 : bytes
}.

Record RegistrationData := {
  PublicKey : PublicKeyParts;
  Signature : DecomposedSignature
}.

(** The arguments of one [RegisterIdentity] call of the contract session. *)
Record RegisterIdentityCall := {
  reg_pubKeyPart1 : bytes;
  reg_pubKeyPart2 : bytes;
  reg_V : byte;
  reg_R : bytes;
  reg_S : bytes
}.

(** What [RegisterIdentities] uses and the sources do not hold: the
    identities, [registry.CreateRegistrationData], and the ledger behind
    the generated session. *)
Class RegistryDeps := {
  IdentityHolder : Type;
  CreateRegistrationData : IdentityHolder -> RegistrationData * option error;
  registerReply :
    list RegisterIdentityCall -> RegisterIdentityCall -> option error
}.

(** [pc.RegisterIdentity(...)]. *)
Definition RegisterIdentity `{RegistryDeps} (c : RegisterIdentityCall)
  : State (list RegisterIdentityCall) (option error) :=
  fun log => (registerReply log c, log ++ [c]).

(** The call the loop body builds from the registration data. *)
Definition registrationCall (registrationData : RegistrationData)
  : RegisterIdentityCall :=
  let sig := Signature registrationData in
  let pubKeyPart1 := zero_array 32 in
  let pubKeyPart2 := zero_array 32 in
  let pubKeyPart1 :=
    copy_slice pubKeyPart1 0 32 (Part1 (PublicKey registrationData)) in
  let pubKeyPart2 :=
    copy_slice pubKeyPart2 0 32 (Part2 (PublicKey registrationData)) in
  {| reg_pubKeyPart1 := pubKeyPart1;
     reg_pubKeyPart2 := pubKeyPart2;
     reg_V := sig_V sig;
     reg_R := sig_R sig;
     reg_S := sig_S sig |}.

(** The [for ... range identities] loop, one identity per step. *)
Fixpoint RegisterIdentities `{RegistryDeps} (identities : list IdentityHolder)
  : State (list RegisterIdentityCall) (option error) :=
  match identities with
  | [] => ret None
  | identity :: rest =>
      let '(registrationData, err) := CreateRegistrationData identity in
      match err with
      | Some e => ret (Some e)
      | None =>
          do err <- RegisterIdentity (registrationCall registrationData);
          match err with
          | Some e => ret (Some e)
          | None => RegisterIdentities rest
          end
      end
  end.

(** ** client: the reconnecting client *)

Module client.

(** The connections of the process: how many dials were made, and the
    handles [ethclient.Dial] returned and [Close] was called on, oldest
    first.  A handle is the number of the dial that returned it. *)
Record Net := {
  dials : nat;
  opened : list nat;
  closed : list nat
}.

(** The node behind [ethclient.Dial]: whether the dial number [n], to
    [address], fails. *)
Class EthNode := {
  dialError : string -> nat -> option error
}.

(** [ethclient.Dial(address)]; the handle counts only with a nil error. *)
Definition ethclient_Dial `{EthNode} (address : string)
  : State Net (nat * option error) :=
  fun w =>
    match dialError address (dials w) with
    | Some e =>
        ((0%nat, Some e),
         {| dials := Datatypes.S (dials w); opened := opened w;
            closed := closed w |})
    | None =>
        ((dials w, None),
         {| dials := Datatypes.S (dials w); opened := opened w ++ [dials w];
            closed := closed w |})
    end.

(** [c.Close()] on a client handle. *)
Definition ethclient_Close (c : nat) : State Net unit :=
  fun w =>
    (tt, {| dials := dials w; opened := opened w; closed := closed w ++ [c] |}).

(** [fmt.Errorf(format + ": %w", err)]: the message of the wrapping error. *)
Definition Errorf_w (prefix : string) (err : error) : error :=
  (prefix ++ ": " ++ err)%string.

(** The mutex is held for the whole of each method: a call is one step.
    [client_handle] is the field [client]. *)
Record ReconnectableEthClient := {
  address : string;
  client_handle : nat
}.

Definition NewReconnectableEthClient `{EthNode} (address : string)
  : State Net (option ReconnectableEthClient * option error) :=
  do r <- ethclient_Dial address;
  let '(ec, err) := r in
  match err with
  | Some err =>
      ret (None, Some (Errorf_w "ethereum client failed to connect" err))
  | None => ret (Some {| address := address; client_handle := ec |}, None)
  end.

Definition Client (c : ReconnectableEthClient) : nat := client_handle c.

(** [Reconnect] works on the receiver in place: the result carries the
    object after the call. *)
Definition Reconnect `{EthNode} (c : ReconnectableEthClient)
  : State Net (ReconnectableEthClient * option error) :=
  do r <- ethclient_Dial (address c);
  let '(client, err) := r in
  match err with
  | Some err => ret (c, Some (Errorf_w "ethereum client failed to dial" err))
  | None =>
      do _ <- ethclient_Close (client_handle c);
      ret ({| address := address c; client_handle := client |}, None)
  end.

(** [n] calls of [Reconnect] in a row, with the error of each. *)
Fixpoint Reconnects `{EthNode} (n : nat) (c : ReconnectableEthClient)
  : State Net (ReconnectableEthClient * list (option error)) :=
  match n with
  | O => ret (c, [])
  | Datatypes.S m =>
      do r <- Reconnect c;
      do rs <- Reconnects m (fst r);
      ret (fst rs, snd r :: snd rs)
  end.

(** ** client/with_dry_runs.go *)

(** Go errors with the structure [DryRun] looks into: an [rpc.Error] has a
    code, [errors.Wrap] puts a message in front of a cause, and
    [ErrorTransactionReverted] holds an [rpc.Error] and a reason. *)
Inductive goerror :=
| rpcError (code : Z) (message : string)
| otherError (message : string)
| withMessage (message : string) (cause : goerror)
| ErrorTransactionReverted (Err_code : Z) (Err_message : string)
                           (Reason : string).

(** [err.Error()]. *)
Fixpoint Error (e : goerror) : string :=
  match e with
  | rpcError _ m => m
  | otherError m => m
  | withMessage m cause => (m ++ ": " ++ Error cause)%string
  | ErrorTransactionReverted _ m _ => m
  end.

(** [errors.Wrap(err, message)]: nil for a nil error. *)
Definition Wrap (err : option goerror) (message : string) : option goerror :=
  match err with
  | None => None
  | Some e => Some (withMessage message e)
  end.

(** [errors.Cause(err)]: the innermost error that has no cause. *)
Fixpoint Cause (e : goerror) : goerror :=
  match e with
  | withMessage _ cause => Cause cause
  | _ => e
  end.

(** [strings.Contains(s, substr)]. *)
Fixpoint Contains (s substr : string) : bool :=
  String.prefix substr s ||
  match s with
  | EmptyString => false
  | String _ s' => Contains s' substr
  end.

(** [strings.TrimPrefix(s, prefix)]. *)
Definition TrimPrefix (s prefix : string) : string :=
  if String.prefix prefix s
  then String.substring (String.length prefix)
         (String.length s - String.length prefix) s
  else s.

(** The requests and what estimates them: the types of the package that the
    sources do not hold, and the three methods of [Estimatable]. *)
Class Requests := {
  Request : Type;
  ethClientGetter : Type;
  ContractEstimator : Type;
  EstimateOpts : Type;
  types_Transaction : Type;
  getGasLimit : Request -> Z;
  toEstimator :
    Request -> ethClientGetter -> ContractEstimator * option goerror;
  toEstimateOps : Request -> EstimateOpts
}.

(** The write methods of the [BC] interface that the component wraps. *)
Inductive BCMethod :=
| bc_TransferEth
| bc_TransferMyst
| bc_SettlePromise
| bc_RegisterIdentity
| bc_SettleAndRebalance
| bc_SettleWithBeneficiary
| bc_DecreaseProviderStake
| bc_SettleIntoStake
| bc_IncreaseProviderStake.

(** What reached the node: a gas estimation or a transaction. *)
Inductive Event `{Requests} :=
| Estimated (estimator : ContractEstimator) (ops : EstimateOpts)
| Sent (method : BCMethod) (req : Request).

(** The node: what it answers to an estimation and to a transaction, given
    what reached it before. *)
Class Node `{Requests} := {
  estimateReply :
    list Event -> ContractEstimator -> EstimateOpts -> Z * option goerror;
  bcReply :
    list Event -> BCMethod -> Request
    -> option types_Transaction * option goerror
}.

(** [estimator.Estimate(ops)]. *)
Definition estimator_Estimate `{Node} (estimator : ContractEstimator)
  (ops : EstimateOpts) : State (list Event) (Z * option goerror) :=
  fun log => (estimateReply log estimator ops, log ++ [Estimated estimator ops]).

(** [cwdr.bc.M(req)] for a write method [M]. *)
Definition bc_call `{Node} (method : BCMethod) (req : Request)
  : State (list Event) (option types_Transaction * option goerror) :=
  fun log => (bcReply log method req, log ++ [Sent method req]).

(** [WithDryRuns]; its [bc] is the node. *)
Record WithDryRuns `{Requests} := {
  ethClient : ethClientGetter
}.

Definition TransferEth `{Node} (cwdr : WithDryRuns) (etr : Request)
  : State (list Event) (option types_Transaction * option goerror) :=
  bc_call bc_TransferEth etr.

Definition Estimate `{Node} (cwdr : WithDryRuns) (req : Request)
  : State (list Event) (Z * option goerror) :=
  if getGasLimit req =? 0 then ret (0, None)
  else
    let '(estimator, err) := toEstimator req (ethClient cwdr) in
    match err with
    | Some e => ret (0, Some e)
    | None =>
        do r <- estimator_Estimate estimator (toEstimateOps req);
        ret (fst r, Wrap (snd r) "could not estimate gas")
    end.

Definition revertMessage : string :=
  "VM Exception while processing transaction: revert".

Definition DryRun `{Node} (cwdr : WithDryRuns) (req : Request)
  : State (list Event) (option goerror) :=
  do r <- Estimate cwdr req;
  match snd r with
  | None => ret None
  | Some err =>
      match Cause err with
      | rpcError code message =>
          if (code =? -32000) && Contains message revertMessage
          then ret (Some (ErrorTransactionReverted code message
                            (TrimPrefix message
                               (revertMessage ++ " ")%string)))
          else ret (Some err)
      | _ => ret (Some err)
      end
  end.

Definition TransferMyst `{Node} (cwdr : WithDryRuns) (req : Request)
  : State (list Event) (option types_Transaction * option goerror) :=
  do r <- Estimate cwdr req;
  match snd r with
  | Some err => ret (None, Some err)
  | None => bc_call bc_TransferMyst req
  end.

Definition SettlePromise `{Node} (cwdr : WithDryRuns) (req : Request)
  : State (list Event) (option types_Transaction * option goerror) :=
  do r <- Estimate cwdr req;
  match snd r with
  | Some err => ret (None, Some err)
  | None => bc_call bc_SettlePromise req
  end.

Definition RegisterIdentity `{Node} (cwdr : WithDryRuns) (req : Request)
  : State (list Event) (option types_Transaction * option goerror) :=
  do r <- Estimate cwdr req;
  match snd r with
  | Some err => ret (None, Some err)
  | None => bc_call bc_RegisterIdentity req
  end.

Definition SettleAndRebalance `{Node} (cwdr : WithDryRuns) (req : Request)
  : State (list Event) (option types_Transaction * option goerror) :=
  do r <- Estimate cwdr req;
  match snd r with
  | Some err => ret (None, Some err)
  | None => bc_call bc_SettleAndRebalance req
  end.

Definition SettleWithBeneficiary `{Node} (cwdr : WithDryRuns) (req : Request)
  : State (list Event) (option types_Transaction * option goerror) :=
  do r <- Estimate cwdr req;
  match snd r with
  | Some err => ret (None, Some err)
  | None => bc_call bc_SettleWithBeneficiary req
  end.

Definition DecreaseProviderStake `{Node} (cwdr : WithDryRuns) (req : Request)
  : State (list Event) (option types_Transaction * option goerror) :=
  do r <- Estimate cwdr req;
  match snd r with
  | Some err => ret (None, Some err)
  | None => bc_call bc_DecreaseProviderStake req
  end.

Definition SettleIntoStake `{Node} (cwdr : WithDryRuns) (req : Request)
  : State (list Event) (option types_Transaction * option goerror) :=
  do r <- Estimate cwdr req;
  match snd r with
  | Some err => ret (None, Some err)
  | None => bc_call bc_SettleIntoStake req
  end.

Definition IncreaseProviderStake `{Node} (cwdr : WithDryRuns) (req : Request)
  : State (list Event) (option types_Transaction * option goerror) :=
  do r <- Estimate cwdr req;
  match snd r with
  | Some err => ret (None, Some err)
  | None => bc_call bc_IncreaseProviderStake req
  end.

(** The write methods that estimate first, each with the method of the
    node it forwards to. *)
Definition guardedWriters `{Node}
  : list (BCMethod *
          (WithDryRuns -> Request
           -> State (list Event) (option types_Transaction * option goerror))) :=
  [(bc_TransferMyst, TransferMyst);
   (bc_SettlePromise, SettlePromise);
   (bc_RegisterIdentity, RegisterIdentity);
   (bc_SettleAndRebalance, SettleAndRebalance);
   (bc_SettleWithBeneficiary, SettleWithBeneficiary);
   (bc_DecreaseProviderStake, DecreaseProviderStake);
   (bc_SettleIntoStake, SettleIntoStake);
   (bc_IncreaseProviderStake, IncreaseProviderStake)].

End client.

(** The small instance, for balances.go: the same codec, and a ledger that
    accepts every withdrawal. *)
#[local] Instance demoBalances : balances.BalancesDeps := {|
  balances.DecomposeSignature := demo_DecomposeSignature;
  balances.withdrawReply := fun _ _ => None
|}.

(** The request [NewWithdrawRequest] builds for the payer and [amount]. *)
Definition demoWithdrawRequest (amount : Z) : balances.WithdrawRequest :=
  {| balances.Amount := amount mod 2 ^ 256;
     balances.Signature :=
       fst (demo_DecomposeSignature
              (fst (Sign (keccak (balances.withdrawPreimage amount))
                      (PrivateKey demoPayer)))) |}.

(** The same codec and ledger, with a consumer hash of 33 bytes. *)
Definition demoLongHashDeps : ClearingDeps := {|
  DecomposeSignature := demo_DecomposeSignature;
  ConsumerHash := fun _ => replicate 33 x07;
  ledgerReply := fun _ _ => None
|}.

(** The small instance, for the client: a node whose odd dials fail, and
    one that answers every estimation with a revert. *)
#[local] Instance demoEthNode : client.EthNode := {|
  client.dialError := fun _ n =>
    if Nat.even n then None else Some "connection refused"%string
|}.

Definition demoNet : client.Net :=
  {| client.dials := 0; client.opened := []; client.closed := [] |}.

#[local] Instance demoRequests : client.Requests := {|
  client.Request := Z;
  client.ethClientGetter := unit;
  client.ContractEstimator := unit;
  client.EstimateOpts := unit;
  client.types_Transaction := unit;
  client.getGasLimit := fun r => r;
  client.toEstimator := fun _ _ => (tt, None);
  client.toEstimateOps := fun _ => tt
|}.

Definition demoRevert : client.goerror :=
  client.rpcError (-32000)
    "VM Exception while processing transaction: revert not enough funds".

#[local] Instance demoRevertingNode : client.Node := {|
  client.estimateReply := fun _ _ _ => (0, Some demoRevert);
  client.bcReply := fun _ _ _ => (Some tt, None)
|}.

Definition demoDryRuns : client.WithDryRuns := {| client.ethClient := tt |}.

(** * Properties *)

(** ** Bytes and the 256-bit encoding *)

Lemma Z_of_byte_of_Z (z : Z) : Z_of_byte (byte_of_Z z) = z mod 256.
Proof.
  unfold Z_of_byte, byte_of_Z.
  assert (Hr : 0 <= z mod 256 < 256) by (apply Z.mod_pos_bound; lia).
  destruct (Byte.of_N (Z.to_N (z mod 256))) as [b|] eqn:E.
  - apply Byte.to_of_N in E. rewrite E. lia.
  - apply Byte.of_N_None_iff in E. lia.
Qed.

Lemma length_ReadBits (n : nat) (x : Z) : length (ReadBits n x) = n.
Proof.
  revert x. induction n as [|n IH]; intros x; simpl; [reflexivity|].
  rewrite length_app, IH. simpl. lia.
Qed.

Lemma decode_be_snoc (bs : bytes) (b : byte) :
  decode_be (bs ++ [b]) = decode_be bs * 256 + Z_of_byte b.
Proof. unfold decode_be. rewrite fold_left_app. reflexivity. Qed.

(** Decoding the [n] bytes read from [x] gives [x] modulo [256^n]. *)
Lemma decode_be_ReadBits (n : nat) (x : Z) :
  decode_be (ReadBits n x) = x mod 256 ^ Z.of_nat n.
Proof.
  revert x. induction n as [|n IH]; intros x.
  - simpl. rewrite Z.mod_1_r. reflexivity.
  - cbn [ReadBits]. rewrite decode_be_snoc, IH, Z_of_byte_of_Z.
    rewrite Nat2Z.inj_succ, Z.pow_succ_r by lia.
    rewrite Z.rem_mul_r by lia. lia.
Qed.

Lemma math_U256_mod (x : Z) : math_U256 x = x mod 2 ^ 256.
Proof.
  unfold math_U256, tt256m1.
  replace (2 ^ 256 - 1) with (Z.ones 256) by (rewrite Z.ones_equiv; lia).
  apply Z.land_ones. lia.
Qed.

(** A value below [2^256] is padded to exactly 32 bytes. *)
Lemma PaddedBigBytes_32 (y : Z) :
  0 <= y < 2 ^ 256 -> PaddedBigBytes y 32 = ReadBits 32 y.
Proof.
  intros [Hlo Hhi]. unfold PaddedBigBytes, big_Bytes.
  rewrite (Z.abs_eq y) by lia.
  destruct (32 <=? BitLen y / 8) eqn:E; [|reflexivity].
  apply Z.leb_le in E. unfold BitLen in *.
  rewrite (Z.abs_eq y) in * by lia.
  destruct (y =? 0) eqn:E0.
  - change (0 / 8) with 0 in E. lia.
  - apply Z.eqb_neq in E0.
    assert (Hl : Z.log2 y < 256) by (apply Z.log2_lt_pow2; lia).
    assert (Hg : 0 <= Z.log2 y) by apply Z.log2_nonneg.
    assert (Hd : 32 * 8 <= Z.log2 y + 1).
    { pose proof (Z.mul_div_le (Z.log2 y + 1) 8 ltac:(lia)). lia. }
    replace (Z.log2 y) with 255 by lia. reflexivity.
Qed.

(** [abi.U256] is the spec's fixed-width big-endian encoding. *)
Lemma U256_encode (v : Z) : U256 v = encode_uint256_be v.
Proof.
  unfold U256, encode_uint256_be. rewrite math_U256_mod.
  apply PaddedBigBytes_32. apply Z.mod_pos_bound. lia.
Qed.

Lemma length_encode_uint256_be (v : Z) :
  length (encode_uint256_be v) = 32%nat.
Proof. apply length_ReadBits. Qed.

Lemma decode_encode_uint256_be (v : Z) :
  decode_be (encode_uint256_be v) = v mod 2 ^ 256.
Proof.
  unfold encode_uint256_be. rewrite decode_be_ReadBits.
  change (256 ^ Z.of_nat 32) with (2 ^ 256).
  apply Z.mod_mod. lia.
Qed.

(** A non-negative [int64] is encoded without loss. *)
Lemma decode_encode_nonneg (v : Z) :
  int64_range v -> 0 <= v -> decode_be (U256 (big_NewInt v)) = v.
Proof.
  unfold int64_range, big_NewInt. intros Hv Hpos.
  rewrite U256_encode, decode_encode_uint256_be.
  apply Z.mod_small. lia.
Qed.

(** ** The promise hash *)

Section PromiseHash.
Context `{Crypto}.

Lemma HashBytes_preimage (p : Promise) :
  HashBytes p =
  keccak (bytes_of_string issuerPrefix ++ Address_Bytes (Receiver p) ++
          encode_uint256_be (SeqNo p) ++ encode_uint256_be (Amount p)).
Proof.
  unfold HashBytes, Keccak256, big_NewInt. cbn [concat].
  rewrite !U256_encode, app_nil_r. reflexivity.
Qed.


(** The two prefix tags are different constants. *)
Lemma prefixes_distinct :
  bytes_of_string issuerPrefix <> bytes_of_string receiverPrefix.
Proof. vm_compute. discriminate. Qed.

(** A negative field is encoded as its two's complement. *)
Lemma encode_uint256_be_twos_complement (v : Z) :
  encode_uint256_be v = encode_uint256_be (v + 2 ^ 256).
Proof.
  unfold encode_uint256_be. f_equal.
  rewrite <- (Z.mod_add v 1 (2 ^ 256)) by lia. f_equal; lia.
Qed.

(** ** The signing chain *)

Lemma SignByPayer_eq (p : Promise) (payer : MystIdentity) :
  SignByPayer p payer =
  match Sign (HashBytes p) (PrivateKey payer) with
  | (_, Some e) => (None, Some e)
  | (sig, None) =>
      (Some {| embedded_Promise := p; IssuerSignature := sig |}, None)
  end.
Proof.
  unfold SignByPayer.
  destruct (Sign (HashBytes p) (PrivateKey payer)) as [sig [e|]]; reflexivity.
Qed.

(** C4, as the code has it: neither [HashBytes] nor [SignByPayer] looks at
    the sign of a field.  [HashBytes] always returns a digest, taken over
    the 32-byte encodings of the fields modulo 2^256 (the two's complement
    of a negative one), and [SignByPayer] fails exactly when [crypto.Sign]
    does, with that error. *)
Theorem SignByPayer_no_sign_check (p : Promise) (payer : MystIdentity) :
  HashBytes p =
    keccak (bytes_of_string issuerPrefix ++ Address_Bytes (Receiver p) ++
            ReadBits 32 (SeqNo p mod 2 ^ 256) ++
            ReadBits 32 (Amount p mod 2 ^ 256))
  /\ encode_uint256_be (SeqNo p) = encode_uint256_be (SeqNo p + 2 ^ 256)
  /\ encode_uint256_be (Amount p) = encode_uint256_be (Amount p + 2 ^ 256)
  /\ SignByPayer p payer =
     match Sign (HashBytes p) (PrivateKey payer) with
     | (_, Some e) => (None, Some e)
     | (sig, None) =>
         (Some {| embedded_Promise := p; IssuerSignature := sig |}, None)
     end.
Proof.
  split; [apply HashBytes_preimage|].
  split; [apply encode_uint256_be_twos_complement|].
  split; [apply encode_uint256_be_twos_complement|].
  apply SignByPayer_eq.
Qed.

Lemma SignByReceiver_recover_error (ip : IssuedPromise)
  (receiver : MystIdentity) (pub : bytes) (e : error) :
  Ecrecover (HashBytes (embedded_Promise ip)) (IssuerSignature ip)
    = (pub, Some e) ->
  SignByReceiver ip receiver = (None, Some e).
Proof. intros E. unfold SignByReceiver. rewrite E. reflexivity. Qed.

(** Once the issuer's key is recovered, [SignByReceiver] returns a promise
    and a nil error whatever [crypto.Sign] answers. *)
Lemma SignByReceiver_recovered (ip : IssuedPromise)
  (receiver : MystIdentity) (pub : bytes) :
  Ecrecover (HashBytes (embedded_Promise ip)) (IssuerSignature ip)
    = (pub, None) ->
  SignByReceiver ip receiver =
  (Some {| embedded_IssuedPromise := ip;
           ReceiverSignature :=
             fst (Sign (counterSignHash (HashBytes (embedded_Promise ip))
                          (PubkeyToAddress (ToECDSAPub pub)))
                    (PrivateKey receiver)) |},
   None).
Proof.
  intros E. unfold SignByReceiver, counterSignHash. rewrite E.
  destruct (Sign _ (PrivateKey receiver)) as [sig err]. reflexivity.
Qed.

(** When every step succeeds, the counter-signature is the agent's
    signature over [h2], built from [h1] and the recovered address. *)
Lemma SignByReceiver_counter_signature (ip : IssuedPromise)
  (receiver : MystIdentity) (pub sig : bytes) :
  Ecrecover (HashBytes (embedded_Promise ip)) (IssuerSignature ip)
    = (pub, None) ->
  Sign (counterSignHash (HashBytes (embedded_Promise ip))
          (PubkeyToAddress (ToECDSAPub pub)))
    (PrivateKey receiver) = (sig, None) ->
  SignByReceiver ip receiver =
  (Some {| embedded_IssuedPromise := ip; ReceiverSignature := sig |}, None).
Proof.
  intros E Es. rewrite (SignByReceiver_recovered _ _ _ E), Es. reflexivity.
Qed.

(** C2, where the code departs from it: when the issuer's key is recovered
    and the agent's own [crypto.Sign] fails with [e], [SignByReceiver]
    still returns a [ReceivedPromise] (carrying whatever bytes came with the
    error) and a nil error; [e] is dropped. *)
Theorem SignByReceiver_swallows_sign_error (ip : IssuedPromise)
  (receiver : MystIdentity) (pub junk : bytes) (e : error) :
  Ecrecover (HashBytes (embedded_Promise ip)) (IssuerSignature ip)
    = (pub, None) ->
  Sign (counterSignHash (HashBytes (embedded_Promise ip))
          (PubkeyToAddress (ToECDSAPub pub)))
    (PrivateKey receiver) = (junk, Some e) ->
  SignByReceiver ip receiver =
  (Some {| embedded_IssuedPromise := ip; ReceiverSignature := junk |}, None).
Proof.
  intros E Es. rewrite (SignByReceiver_recovered _ _ _ E), Es. reflexivity.
Qed.

(** C3, where the code departs from it: [SignByReceiver] can succeed (a
    promise and a nil error) although the agent's key produced no
    signature over [h2]; the attached counter-signature is then not the
    result of a successful [crypto.Sign]. *)
Theorem SignByReceiver_success_without_signature (ip : IssuedPromise)
  (receiver : MystIdentity) (pub junk : bytes) (e : error) :
  Ecrecover (HashBytes (embedded_Promise ip)) (IssuerSignature ip)
    = (pub, None) ->
  Sign (counterSignHash (HashBytes (embedded_Promise ip))
          (PubkeyToAddress (ToECDSAPub pub)))
    (PrivateKey receiver) = (junk, Some e) ->
  exists rp,
    SignByReceiver ip receiver = (Some rp, None) /\
    embedded_IssuedPromise rp = ip /\
    Sign (counterSignHash (HashBytes (embedded_Promise ip))
            (PubkeyToAddress (ToECDSAPub pub)))
      (PrivateKey receiver) <> (ReceiverSignature rp, None).
Proof.
  intros E Es. eexists. split.
  - apply (SignByReceiver_recovered _ _ _ E).
  - split; [reflexivity|]. rewrite Es. discriminate.
Qed.

(** C10: the signing steps leave their input as it is.  The promise
    [SignByPayer] returns embeds the input promise and adds the issuer's
    signature; the promise [SignByReceiver] returns embeds the input
    [IssuedPromise] (receiver, sequence number, amount and issuer signature
    unchanged) and adds the counter-signature. *)
Theorem signing_keeps_input :
  (forall (p : Promise) (payer : MystIdentity) (ip : IssuedPromise)
          (err : option error),
      SignByPayer p payer = (Some ip, err) ->
      embedded_Promise ip = p /\
      ip = {| embedded_Promise := p;
              IssuerSignature :=
                fst (Sign (HashBytes p) (PrivateKey payer)) |})
  /\
  (forall (ip : IssuedPromise) (receiver : MystIdentity)
          (rp : ReceivedPromise) (err : option error),
      SignByReceiver ip receiver = (Some rp, err) ->
      embedded_IssuedPromise rp = ip /\
      Receiver (embedded_Promise (embedded_IssuedPromise rp))
        = Receiver (embedded_Promise ip) /\
      SeqNo (embedded_Promise (embedded_IssuedPromise rp))
        = SeqNo (embedded_Promise ip) /\
      Amount (embedded_Promise (embedded_IssuedPromise rp))
        = Amount (embedded_Promise ip) /\
      IssuerSignature (embedded_IssuedPromise rp) = IssuerSignature ip /\
      rp = {| embedded_IssuedPromise := ip;
              ReceiverSignature := ReceiverSignature rp |}).
Proof.
  split.
  - intros p payer ip err E. rewrite SignByPayer_eq in E.
    destruct (Sign (HashBytes p) (PrivateKey payer)) as [sig [e|]];
      inversion E; subst. split; reflexivity.
  - intros ip receiver rp err E.
    destruct (Ecrecover (HashBytes (embedded_Promise ip))
                (IssuerSignature ip)) as [pub [e|]] eqn:Er.
    + rewrite (SignByReceiver_recover_error _ _ _ _ Er) in E. discriminate.
    + rewrite (SignByReceiver_recovered _ _ _ Er) in E.
      inversion E; subst. repeat split; reflexivity.
Qed.

End PromiseHash.

(** ** The settlement encoder *)

Lemma copy_same_length (dst src : bytes) :
  length dst = length src -> copy dst src = src.
Proof.
  intros E. unfold copy. rewrite E, Nat.min_id.
  rewrite firstn_all, <- E, drop_all. apply app_nil_r.
Qed.

(** With a 20-byte address, the two copies of the code build exactly the
    spec's packed word. *)
Lemma copy_slice_packedWord (vi vr : byte) (a : Address) :
  wf_Address a ->
  copy_slice (zero_array 32) 10 32 ([vi; vr] ++ Address_Bytes a)
  = packedWord vi vr a.
Proof.
  intros Ha. unfold copy_slice, packedWord, Address_Bytes.
  change (take 10 (zero_array 32)) with (replicate 10 x00).
  change (drop 32 (zero_array 32)) with (@nil byte).
  rewrite copy_same_length, app_nil_r; [reflexivity|].
  unfold wf_Address in Ha. cbn [app length]. rewrite Ha. reflexivity.
Qed.

Lemma copy_slice_whole (src : bytes) :
  copy_slice (zero_array 32) 0 32 src = copy (zero_array 32) src.
Proof.
  unfold copy_slice.
  change (take 0 (zero_array 32)) with (@nil byte).
  change (drop 32 (zero_array 32)) with (@nil byte).
  change (take (32 - 0) (drop 0 (zero_array 32))) with (zero_array 32).
  rewrite app_nil_r. reflexivity.
Qed.

Lemma length_copy (dst src : bytes) : length (copy dst src) = length dst.
Proof.
  unfold copy. rewrite length_app, length_take, length_drop. lia.
Qed.

Lemma packedWord_layout (vi vr : byte) (a : Address) :
  wf_Address a ->
  length (packedWord vi vr a) = 32%nat /\
  take 10 (packedWord vi vr a) = replicate 10 x00 /\
  packedWord vi vr a !! 10%nat = Some vi /\
  packedWord vi vr a !! 11%nat = Some vr /\
  drop 12 (packedWord vi vr a) = Address_Bytes a.
Proof.
  intros Ha. unfold packedWord, wf_Address, Address_Bytes in *.
  repeat split; try reflexivity.
  cbn [replicate app length]. rewrite Ha. reflexivity.
Qed.

Section Clearing.
Context `{ClearingDeps}.

Lemma ClearReceivedPromise_decomposed (promise : ReceivedPromise)
  (issuerSig receiverSig : DecomposedSignature)
  (log : list ClearPromiseCall) :
  DecomposeSignature (IssuerSignature (embedded_IssuedPromise promise))
    = (issuerSig, None) ->
  DecomposeSignature (ReceiverSignature promise) = (receiverSig, None) ->
  ClearReceivedPromise promise log =
  (ledgerReply log (settlementCall promise issuerSig receiverSig),
   log ++ [settlementCall promise issuerSig receiverSig]).
Proof.
  intros Ei Er. unfold ClearReceivedPromise. rewrite Ei, Er. reflexivity.
Qed.

(** C1: when both signatures decompose, [ClearReceivedPromise] submits one
    ledger call, with the tuple (packedWord, extraDataHash, sequenceNumber,
    cumulativeAmount, issuer.r, issuer.s, counter.r, counter.s); the packed
    word has 32 bytes: bytes 0-9 zero, byte 10 the issuer's [v], byte 11
    the counter-signer's [v], bytes 12-31 the beneficiary address. *)
Theorem ClearReceivedPromise_submits_packed_tuple
  (promise : ReceivedPromise) (issuerSig receiverSig : DecomposedSignature)
  (log : list ClearPromiseCall) :
  DecomposeSignature (IssuerSignature (embedded_IssuedPromise promise))
    = (issuerSig, None) ->
  DecomposeSignature (ReceiverSignature promise) = (receiverSig, None) ->
  wf_Address (Receiver (embedded_Promise (embedded_IssuedPromise promise))) ->
  let p := embedded_Promise (embedded_IssuedPromise promise) in
  let w := packedWord (sig_V issuerSig) (sig_V receiverSig) (Receiver p) in
  let c := {| call_packedAddressAndSigns := w;
              call_extraDataHash :=
                copy (zero_array 32) (ConsumerHash promise);
              call_seqNo := SeqNo p;
              call_amount := Amount p;
              call_issuerR := sig_R issuerSig;
              call_issuerS := sig_S issuerSig;
              call_receiverR := sig_R receiverSig;
              call_receiverS := sig_S receiverSig |} in
  ClearReceivedPromise promise log = (ledgerReply log c, log ++ [c])
  /\ length w = 32%nat
  /\ take 10 w = replicate 10 x00
  /\ w !! 10%nat = Some (sig_V issuerSig)
  /\ w !! 11%nat = Some (sig_V receiverSig)
  /\ drop 12 w = Address_Bytes (Receiver p)
  /\ length (call_extraDataHash c) = 32%nat.
Proof.
  intros Ei Er Ha p w c. split.
  - rewrite (ClearReceivedPromise_decomposed _ _ _ _ Ei Er).
    unfold settlementCall. fold p.
    rewrite (copy_slice_packedWord _ _ _ Ha), copy_slice_whole.
    reflexivity.
  - destruct (packedWord_layout (sig_V issuerSig) (sig_V receiverSig)
                (Receiver p) Ha) as (? & ? & ? & ? & ?).
    repeat split; try assumption.
    subst c. cbn [call_extraDataHash]. rewrite length_copy. reflexivity.
Qed.

(** C9: when the issuer's or the receiver's signature does not decompose,
    [ClearReceivedPromise] returns that error and the log of ledger calls
    is as it was: no settlement call is submitted. *)
Theorem ClearReceivedPromise_malformed_signature
  (promise : ReceivedPromise) (log : list ClearPromiseCall) (e : error) :
  snd (DecomposeSignature
         (IssuerSignature (embedded_IssuedPromise promise))) = Some e
  \/ (snd (DecomposeSignature
             (IssuerSignature (embedded_IssuedPromise promise))) = None /\
      snd (DecomposeSignature (ReceiverSignature promise)) = Some e) ->
  ClearReceivedPromise promise log = (Some e, log).
Proof.
  unfold ClearReceivedPromise.
  destruct (DecomposeSignature
              (IssuerSignature (embedded_IssuedPromise promise)))
    as [issuerSig [ei|]];
    destruct (DecomposeSignature (ReceiverSignature promise))
      as [receiverSig [er|]];
    cbn [snd]; intros [E|[E1 E2]]; try discriminate;
    try (injection E as ->); try (injection E2 as ->); reflexivity.
Qed.

(** C5, as the code has it: [ClearReceivedPromise] keeps no record of the
    amounts it settled and compares nothing.  Two promises whose signatures
    decompose are both encoded and submitted, in order, whatever their
    amounts; the error returned for the second is the ledger's answer to
    its call. *)
Theorem ClearReceivedPromise_no_amount_guard
  (first second : ReceivedPromise) (i1 r1 i2 r2 : DecomposedSignature)
  (log : list ClearPromiseCall) :
  DecomposeSignature (IssuerSignature (embedded_IssuedPromise first))
    = (i1, None) ->
  DecomposeSignature (ReceiverSignature first) = (r1, None) ->
  DecomposeSignature (IssuerSignature (embedded_IssuedPromise second))
    = (i2, None) ->
  DecomposeSignature (ReceiverSignature second) = (r2, None) ->
  (do _ <- ClearReceivedPromise first; ClearReceivedPromise second) log
  = (ledgerReply (log ++ [settlementCall first i1 r1])
       (settlementCall second i2 r2),
     log ++ [settlementCall first i1 r1; settlementCall second i2 r2])
  /\ call_amount (settlementCall second i2 r2)
     = Amount (embedded_Promise (embedded_IssuedPromise second)).
Proof.
  intros E1 E2 E3 E4. split; [|reflexivity].
  unfold bind.
  rewrite (ClearReceivedPromise_decomposed _ _ _ _ E1 E2).
  rewrite (ClearReceivedPromise_decomposed _ _ _ _ E3 E4).
  rewrite <- app_assoc. reflexivity.
Qed.

End Clearing.

(** ** The exit flow *)

Section Exit.
Context `{Crypto}.

Import ChannelImplementation.

(** An accepted [RequestExit] stores the request, with the timelock
    started at the time of the call; a rejected one changes nothing. *)
Lemma RequestExit_step (call : ExitCall) (c : Chain) :
  match RequestExit (exit_opts call) (exit_beneficiary call)
          (exit_validUntil call) (exit_signature call)
          (at_time (exit_time call) c) with
  | ((_, None), c') =>
      c' = {| now := exit_time call;
              channel :=
                {| operator := operator (channel c);
                   timelockDelay := timelockDelay (channel c);
                   funds := funds (channel c);
                   exitRequest :=
                     Some {| beneficiary := exit_beneficiary call;
                             validUntil := exit_validUntil call;
                             timelockExpiry :=
                               exit_time call + timelockDelay (channel c);
                             signature := exit_signature call |};
                   payouts := payouts (channel c) |} |}
  | ((_, Some _), c') => c' = at_time (exit_time call) c
  end.
Proof.
  unfold RequestExit, Transact, requestExit. cbn -[recoverAddress].
  destruct (recoverAddress _ _) as [signer [e|]]; [reflexivity|].
  destruct (bool_decide (signer = operator (channel c))); reflexivity.
Qed.

Lemma requestExits_last (c0 : Chain) (calls : list ExitCall) :
  forall (t : Z) (last : option ExitCall) (c' : Chain)
         (last' : option ExitCall),
    requestExits calls (with_exit_request c0 t last) last = (c', last') ->
    exists t', c' = with_exit_request c0 t' last'.
Proof.
  induction calls as [|call rest IH]; intros t last c' last' E.
  - cbn in E. inversion E; subst. eauto.
  - cbn [requestExits] in E.
    pose proof (RequestExit_step call (with_exit_request c0 t last)) as St.
    destruct (RequestExit _ _ _ _ _) as [[tx [e|]] c1].
    + subst c1. apply (IH (exit_time call) last). exact E.
    + apply (IH (exit_time call) (Some call)).
      replace (with_exit_request c0 (exit_time call) (Some call)) with c1;
        [exact E|].
      subst c1. destruct last; reflexivity.
Qed.

(** The session wrappers call the transactor with their own options. *)
Lemma Session_FinalizeExit_eq (s : ChannelImplementationSession) :
  Session_FinalizeExit s = FinalizeExit (Session_TransactOpts s).
Proof. reflexivity. Qed.

Lemma FinalizeExit_early (opts : TransactOpts) (c0 : Chain) (t : Z)
  (l : ExitCall) :
  t < exit_time l + timelockDelay (channel c0) ->
  FinalizeExit opts (with_exit_request c0 t (Some l))
  = ((None, Some ExitNotMatured), with_exit_request c0 t (Some l)).
Proof.
  intros Ht. unfold FinalizeExit, Transact, finalizeExit. cbn.
  destruct (Z.ltb_spec t (exit_time l + timelockDelay (channel c0)));
    [reflexivity|lia].
Qed.

Lemma FinalizeExit_matured (opts : TransactOpts) (c0 : Chain) (t : Z)
  (l : ExitCall) :
  exit_time l + timelockDelay (channel c0) <= t ->
  FinalizeExit opts (with_exit_request c0 t (Some l))
  = ((Some {| tx_method := "finalizeExit"; tx_params := [] |}, None),
     {| now := t;
        channel :=
          {| operator := operator (channel c0);
             timelockDelay := timelockDelay (channel c0);
             funds := 0;
             exitRequest := None;
             payouts :=
               payouts (channel c0)
               ++ [(exit_beneficiary l, funds (channel c0))] |} |}).
Proof.
  intros Ht. unfold FinalizeExit, Transact, finalizeExit. cbn.
  destruct (Z.ltb_spec t (exit_time l + timelockDelay (channel c0)));
    [lia|reflexivity].
Qed.

(** C8: after a run of [RequestExit] transactions on a channel, the last
    accepted of which is [last], [FinalizeExit] before the expiry of its
    timelock fails with [ExitNotMatured] and changes nothing; after the
    expiry it succeeds and pays the channel's funds out to the beneficiary
    of [last]. *)
Theorem FinalizeExit_timelock (calls : list ExitCall) (c c' : Chain)
  (last : ExitCall) (opts : TransactOpts) (t : Z) :
  requestExits calls c None = (c', Some last) ->
  (t < exit_time last + timelockDelay (channel c) ->
   FinalizeExit opts (at_time t c')
   = ((None, Some ExitNotMatured), at_time t c'))
  /\
  (exit_time last + timelockDelay (channel c) < t ->
   exists c'',
     FinalizeExit opts (at_time t c')
     = ((Some {| tx_method := "finalizeExit"; tx_params := [] |}, None), c'')
     /\ exitRequest (channel c'') = None
     /\ payouts (channel c'')
        = payouts (channel c) ++ [(exit_beneficiary last, funds (channel c))]).
Proof.
  intros E.
  assert (Hc : c = with_exit_request c (now c) None) by (destruct c; reflexivity).
  rewrite Hc in E.
  destruct (requestExits_last c calls _ _ _ _ E) as [t' ->].
  change (at_time t (with_exit_request c t' (Some last)))
    with (with_exit_request c t (Some last)).
  split; intros Ht.
  - apply FinalizeExit_early. exact Ht.
  - eexists. split; [apply FinalizeExit_matured; lia|].
    split; reflexivity.
Qed.

End Exit.

(** ** The definitions at work on the small instance *)

Ltac run := vm_compute; reflexivity.

(** The settlement of a promise for 1000, signed with the keys 11 and 24:
    one call, whose packed word carries the two [v] bytes at 10 and 11 and
    the receiver from 12 on. *)
Example ClearReceivedPromise_packed_demo :
  wf_Address demoReceiver /\
  ClearReceivedPromise (demoReceived 1 1000) [] = (None, [demoCall 1 1000]) /\
  call_packedAddressAndSigns (demoCall 1 1000)
  = replicate 10 x00 ++ [x1c; x1b] ++ replicate 20 xaa.
Proof.
  split; [reflexivity|].
  destruct (@ClearReceivedPromise_submits_packed_tuple demoDeps
              (demoReceived 1 1000) (demoIssuerSig 1 1000)
              (demoReceiverSig 1 1000) []) as [E _]; [run|run|run|].
  split; [rewrite E|]; run.
Defined.

(** Co-signing with a key the signing primitive rejects: the error is
    gone, and a promise with an empty counter-signature comes back. *)
Example SignByReceiver_bad_key_demo :
  snd (Sign (counterSignHash (HashBytes (demoPromise 1 1000))
               (addressOf (PrivateKey demoPayer)))
         (PrivateKey demoBadAgent)) = Some "invalid private key"%string /\
  SignByReceiver (demoIssued 1 1000) demoBadAgent
  = (Some {| embedded_IssuedPromise := demoIssued 1 1000;
             ReceiverSignature := [] |}, None).
Proof.
  split; [run|].
  apply (@SignByReceiver_swallows_sign_error demoCrypto
           (demoIssued 1 1000) demoBadAgent (demoRecovered 1 1000)
           [] "invalid private key"%string); run.
Defined.

(** The same run, read as C3 reads it: the call succeeded and the agent's
    key signed nothing. *)
Example SignByReceiver_unsigned_demo :
  exists rp,
    SignByReceiver (demoIssued 1 1000) demoBadAgent = (Some rp, None) /\
    embedded_IssuedPromise rp = demoIssued 1 1000 /\
    Sign (counterSignHash (HashBytes (demoPromise 1 1000))
            (PubkeyToAddress (ToECDSAPub (demoRecovered 1 1000))))
      (PrivateKey demoBadAgent) <> (ReceiverSignature rp, None).
Proof.
  apply (@SignByReceiver_success_without_signature demoCrypto
           (demoIssued 1 1000) demoBadAgent (demoRecovered 1 1000)
           [] "invalid private key"%string); run.
Defined.

(** C4 fails on the code: a promise with amount -1 is hashed, over 32
    bytes of 0xff for the amount, and signed; no error is returned. *)
Lemma SignByPayer_negative_amount_signed :
  Amount (demoPromise 1 (-1)) < 0 /\
  U256 (big_NewInt (Amount (demoPromise 1 (-1)))) = replicate 32 xff /\
  SignByPayer (demoPromise 1 (-1)) demoPayer
  = (Some (demoIssued 1 (-1)), None).
Proof. repeat split; run. Qed.

(** C5 fails on the code: after the settlement of a cumulative amount of
    100, a promise for 90 on the same channel is encoded and submitted as
    well, and no error is returned. *)
Lemma ClearReceivedPromise_lower_amount_submitted :
  ClearReceivedPromise (demoReceived 1 100) [] = (None, [demoCall 1 100]) /\
  ClearReceivedPromise (demoReceived 2 90) [demoCall 1 100]
  = (None, [demoCall 1 100; demoCall 2 90]) /\
  call_amount (demoCall 1 100) = 100 /\
  call_amount (demoCall 2 90) = 90.
Proof. repeat split; run. Qed.

Example ClearReceivedPromise_no_amount_guard_demo :
  (do _ <- ClearReceivedPromise (demoReceived 1 100);
   ClearReceivedPromise (demoReceived 2 90)) []
  = (None, [demoCall 1 100; demoCall 2 90]) /\
  call_amount (demoCall 2 90) = 90.
Proof.
  destruct (@ClearReceivedPromise_no_amount_guard demoDeps
              (demoReceived 1 100) (demoReceived 2 90)
              (demoIssuerSig 1 100) (demoReceiverSig 1 100)
              (demoIssuerSig 2 90) (demoReceiverSig 2 90) [])
    as [E Ea]; [run|run|run|run|].
  split; [rewrite E; run|exact Ea].
Defined.

(** A counter-signature of 64 bytes: the codec's error comes back and the
    ledger sees no call. *)
Example ClearReceivedPromise_malformed_demo :
  length (ReceiverSignature demoTruncated) = 64%nat /\
  ClearReceivedPromise demoTruncated []
  = (Some "MalformedSignatureError"%string, []).
Proof.
  split; [reflexivity|].
  apply (@ClearReceivedPromise_malformed_signature demoDeps).
  right. split; run.
Defined.

Example signing_keeps_input_demo :
  embedded_Promise (demoIssued 1 1000) = demoPromise 1 1000 /\
  embedded_IssuedPromise (demoReceived 1 1000) = demoIssued 1 1000.
Proof.
  destruct (@signing_keeps_input demoCrypto) as [Hp Hr].
  split.
  - apply (Hp (demoPromise 1 1000) demoPayer (demoIssued 1 1000) None). run.
  - apply (Hr (demoIssued 1 1000) demoAgent (demoReceived 1 1000) None). run.
Defined.

(** An exit requested at time 100 with a timelock of 50, followed by a
    request the ledger rejects: finalizing at 120 fails, finalizing at 200
    pays the 1000 out to the beneficiary of the accepted request. *)
Example FinalizeExit_timelock_demo :
  requestExits [demoExit; demoForgedExit] demoChain None
  = (fst (requestExits [demoExit; demoForgedExit] demoChain None),
     Some demoExit) /\
  ChannelImplementation.FinalizeExit demoOpts
    (at_time 120 (fst (requestExits [demoExit; demoForgedExit] demoChain None)))
  = ((None, Some ExitNotMatured),
     at_time 120 (fst (requestExits [demoExit; demoForgedExit] demoChain None)))
  /\
  exists c'',
    ChannelImplementation.FinalizeExit demoOpts
      (at_time 200
         (fst (requestExits [demoExit; demoForgedExit] demoChain None)))
    = ((Some {| tx_method := "finalizeExit"; tx_params := [] |}, None), c'')
    /\ exitRequest (channel c'') = None
    /\ payouts (channel c'') = [(demoReceiver, 1000)].
Proof.
  assert (E : requestExits [demoExit; demoForgedExit] demoChain None
              = (fst (requestExits [demoExit; demoForgedExit] demoChain None),
                 Some demoExit)) by run.
  split; [exact E|]. split.
  - apply (@FinalizeExit_timelock demoCrypto _ _ _ _ demoOpts 120 E).
    reflexivity.
  - apply (@FinalizeExit_timelock demoCrypto _ _ _ _ demoOpts 200 E).
    reflexivity.
Defined.

(** * Further properties of the code *)

(** ** The encodings the signatures cover *)

Lemma int64_mod_inj (x y : Z) :
  int64_range x -> int64_range y -> x mod 2 ^ 256 = y mod 2 ^ 256 -> x = y.
Proof.
  unfold int64_range. intros Hx Hy E.
  pose proof (Z.div_mod x (2 ^ 256) ltac:(lia)) as Dx.
  pose proof (Z.div_mod y (2 ^ 256) ltac:(lia)) as Dy.
  rewrite E in Dx. lia.
Qed.

Lemma U256_int64_inj (x y : Z) :
  int64_range x -> int64_range y ->
  U256 (big_NewInt x) = U256 (big_NewInt y) -> x = y.
Proof.
  unfold big_NewInt. intros Hx Hy E. apply int64_mod_inj; [assumption..|].
  rewrite <- !decode_encode_uint256_be, <- !U256_encode, E. reflexivity.
Qed.

Lemma length_U256 (v : Z) : length (U256 v) = 32%nat.
Proof. rewrite U256_encode. apply length_encode_uint256_be. Qed.

Section Preimages.
Context `{Crypto}.

(** The canonical encoding of a promise loses nothing: two promises of the
    Go type (20-byte receiver, [int64] fields, negative ones included) that
    [HashBytes] digests from the same bytes are the same promise. *)
Theorem promisePreimage_injective (p q : Promise) :
  wf_Promise p -> wf_Promise q ->
  HashBytes p = keccak (promisePreimage p) /\
  HashBytes q = keccak (promisePreimage q) /\
  (promisePreimage p = promisePreimage q -> p = q).
Proof.
  intros (Hpa & Hps & Hpm) (Hqa & Hqs & Hqm).
  split; [reflexivity|]. split; [reflexivity|].
  unfold promisePreimage. cbn [concat]. rewrite !app_nil_r. intros E.
  apply app_inv_head in E.
  apply app_inj_1 in E as [Er E];
    [|unfold wf_Address, Address_Bytes in *; congruence].
  apply app_inj_1 in E as [Es Em]; [|rewrite !length_U256; reflexivity].
  apply U256_int64_inj in Es; [|assumption..].
  apply U256_int64_inj in Em; [|assumption..].
  destruct p, q. cbn in *. unfold Address_Bytes in Er. congruence.
Qed.

(** The three signed byte strings start with different tags: whatever the
    promise, the hash and address, and the amount, the bytes digested for an
    issuer signature, for a counter-signature and for a withdrawal request
    are pairwise different. *)
Theorem signed_preimages_disjoint (p : Promise) (h1 : bytes)
  (payerAddr : Address) (amount : Z) :
  HashBytes p = keccak (promisePreimage p) /\
  counterSignHash h1 payerAddr = keccak (counterSignPreimage h1 payerAddr) /\
  promisePreimage p <> counterSignPreimage h1 payerAddr /\
  promisePreimage p <> balances.withdrawPreimage amount /\
  counterSignPreimage h1 payerAddr <> balances.withdrawPreimage amount.
Proof.
  split; [reflexivity|]. split; [reflexivity|].
  unfold promisePreimage, counterSignPreimage, balances.withdrawPreimage.
  set (i := bytes_of_string issuerPrefix). vm_compute in i. subst i.
  set (r := bytes_of_string receiverPrefix). vm_compute in r. subst r.
  set (w := bytes_of_string balances.withDrawPrefix). vm_compute in w.
  subst w. cbn [concat app].
  repeat split; discriminate.
Qed.

(** For first hashes of one length (a digest has 32 bytes), the bytes
    digested for the counter-signature determine both the promise hash and
    the payer address they were built from. *)
Theorem counterSignPreimage_injective (h1 h1' : bytes)
  (payerAddr payerAddr' : Address) :
  length h1 = length h1' ->
  counterSignHash h1 payerAddr = keccak (counterSignPreimage h1 payerAddr) /\
  (counterSignPreimage h1 payerAddr = counterSignPreimage h1' payerAddr' ->
   h1 = h1' /\ payerAddr = payerAddr').
Proof.
  intros Hl. split; [reflexivity|].
  unfold counterSignPreimage, Address_Bytes. cbn [concat].
  rewrite !app_nil_r. intros E. apply app_inv_head in E.
  apply app_inj_1 in E; assumption.
Qed.

(** When the issuer's address is recovered and the agent's key signs,
    [SignByReceiver] attaches the signature made over the digest of the
    receiver prefix, the promise hash and the recovered address. *)
Theorem SignByReceiver_signs_bound_hash (ip : IssuedPromise)
  (receiver : MystIdentity) (payerAddr : Address) (sig : bytes) :
  recoverAddress (HashBytes (embedded_Promise ip)) (IssuerSignature ip)
    = (payerAddr, None) ->
  Sign (keccak (counterSignPreimage (HashBytes (embedded_Promise ip))
                  payerAddr))
    (PrivateKey receiver) = (sig, None) ->
  SignByReceiver ip receiver
  = (Some {| embedded_IssuedPromise := ip; ReceiverSignature := sig |}, None).
Proof.
  unfold recoverAddress. intros Er Es.
  destruct (Ecrecover (HashBytes (embedded_Promise ip)) (IssuerSignature ip))
    as [pub [e|]] eqn:E; [discriminate|].
  injection Er as <-.
  rewrite (SignByReceiver_recovered _ _ _ E).
  change (counterSignHash ?h ?a) with (keccak (counterSignPreimage h a)).
  rewrite Es. reflexivity.
Qed.

(** The only error [SignByReceiver] returns is the one of [Ecrecover], and
    it returns no promise exactly when it returns an error. *)
Theorem SignByReceiver_error_is_recovery_error (ip : IssuedPromise)
  (receiver : MystIdentity) :
  snd (SignByReceiver ip receiver)
  = snd (Ecrecover (HashBytes (embedded_Promise ip)) (IssuerSignature ip)) /\
  (fst (SignByReceiver ip receiver) = None <->
   snd (SignByReceiver ip receiver) <> None).
Proof.
  destruct (Ecrecover (HashBytes (embedded_Promise ip)) (IssuerSignature ip))
    as [pub [e|]] eqn:E.
  - rewrite (SignByReceiver_recover_error _ _ _ _ E). cbn.
    split; [reflexivity|]. split; [discriminate|reflexivity].
  - rewrite (SignByReceiver_recovered _ _ _ E). cbn.
    split; [reflexivity|]. split; [discriminate|congruence].
Qed.

End Preimages.

(** ** Withdrawal requests *)

Section Balances.
Context `{Crypto} `{balances.BalancesDeps}.

(** The amount a withdrawal request carries to the ledger is the number the
    signed bytes denote: [NewWithdrawRequest] signs the digest of the prefix
    and the 32-byte encoding of the amount, and the request it returns
    holds the amount modulo 2^256 (a negative amount becomes its two's
    complement, as the encoding masks the number in place); [Withdraw] then
    submits one call with that amount and the parts of that signature. *)
Theorem NewWithdrawRequest_then_Withdraw (identity : MystIdentity)
  (amount : Z) (request : balances.WithdrawRequest)
  (log : list balances.WithdrawCall) :
  balances.NewWithdrawRequest identity amount = (Some request, None) ->
  exists sig,
    Sign (keccak (balances.withdrawPreimage amount)) (PrivateKey identity)
      = (sig, None) /\
    balances.DecomposeSignature sig = (balances.Signature request, None) /\
    balances.Amount request = decode_be (U256 (big_NewInt amount)) /\
    balances.Amount request = amount mod 2 ^ 256 /\
    balances.Withdraw request log
    = (balances.withdrawReply log
         {| balances.call_amount := amount mod 2 ^ 256;
            balances.call_V := sig_V (balances.Signature request);
            balances.call_R := sig_R (balances.Signature request);
            balances.call_S := sig_S (balances.Signature request) |},
       log ++ [{| balances.call_amount := amount mod 2 ^ 256;
                  balances.call_V := sig_V (balances.Signature request);
                  balances.call_R := sig_R (balances.Signature request);
                  balances.call_S := sig_S (balances.Signature request) |}]).
Proof.
  unfold balances.NewWithdrawRequest.
  change (Keccak256 [bytes_of_string balances.withDrawPrefix;
                     U256 (big_NewInt amount)])
    with (keccak (balances.withdrawPreimage amount)).
  destruct (Sign _ (PrivateKey identity)) as [sig [e|]]; [discriminate|].
  destruct (balances.DecomposeSignature sig) as [d [e|]] eqn:Ed;
    [discriminate|].
  intros E. injection E as <-. exists sig. cbn.
  split; [reflexivity|]. split; [exact Ed|].
  unfold big_NewInt. rewrite U256_encode, decode_encode_uint256_be.
  split; [apply math_U256_mod|]. split; [apply math_U256_mod|].
  unfold balances.Withdraw, balances.session_Withdraw, bind, ret. cbn.
  rewrite math_U256_mod. reflexivity.
Qed.

End Balances.

(** ** Registration of identities *)

Lemma copy_zero_array (n : nat) (src : bytes) :
  copy (zero_array n) src = take n src ++ replicate (n - length src) x00.
Proof.
  unfold copy, zero_array. rewrite length_replicate, drop_replicate.
  destruct (Nat.le_ge_cases n (length src)) as [Hn|Hn].
  - rewrite Nat.min_l by exact Hn.
    replace (n - length src)%nat with 0%nat by lia.
    replace (n - n)%nat with 0%nat by lia. reflexivity.
  - rewrite Nat.min_r by exact Hn.
    rewrite (take_ge src n) by exact Hn. rewrite firstn_all. reflexivity.
Qed.

Lemma copy_slice_zero_array_whole (src : bytes) :
  copy_slice (zero_array 32) 0 32 src
  = take 32 src ++ replicate (32 - length src) x00.
Proof. rewrite copy_slice_whole. apply copy_zero_array. Qed.

Lemma fixed_width_exact (src : bytes) :
  length src = 32%nat ->
  take 32 src ++ replicate (32 - length src) x00 = src.
Proof.
  intros E. rewrite E, Nat.sub_diag, app_nil_r, <- E. apply firstn_all.
Qed.

Section Registration.
Context `{RegistryDeps}.

(** [RegisterIdentities] registers the identities in order and stops at the
    first failure: the calls it submitted are those of the first [n]
    identities, all of which had registration data; with a nil result [n]
    is the number of identities, and with an error either the data of
    identity [n] could not be created (no call was made for it) or the
    ledger refused the call of identity [n - 1].  Nothing is undone and
    nothing after the failure is tried. *)
Theorem RegisterIdentities_stops_at_first_error
  (identities : list IdentityHolder) (log : list RegisterIdentityCall) :
  exists n : nat,
    (n <= length identities)%nat /\
    snd (RegisterIdentities identities log)
    = log ++ map (fun id => registrationCall (fst (CreateRegistrationData id)))
               (take n identities) /\
    (forall id, In id (take n identities) ->
                snd (CreateRegistrationData id) = None) /\
    match fst (RegisterIdentities identities log) with
    | None => n = length identities
    | Some e =>
        (exists id, identities !! n = Some id /\
                    snd (CreateRegistrationData id) = Some e)
        \/
        (exists m id,
            n = Datatypes.S m /\ identities !! m = Some id /\
            registerReply
              (log ++ map (fun id =>
                             registrationCall (fst (CreateRegistrationData id)))
                        (take m identities))
              (registrationCall (fst (CreateRegistrationData id))) = Some e)
    end.
Proof.
  revert log. induction identities as [|id rest IH]; intros log.
  - exists 0%nat. cbn. rewrite app_nil_r. repeat split; [lia|tauto].
  - cbn [RegisterIdentities].
    destruct (CreateRegistrationData id) as [rd [e|]] eqn:Ec.
    + exists 0%nat. cbn. rewrite app_nil_r.
      repeat split; [lia|tauto|].
      left. exists id. rewrite Ec. split; reflexivity.
    + unfold bind, RegisterIdentity.
      destruct (registerReply log (registrationCall rd)) as [e|] eqn:Er.
      * exists 1%nat. cbn. rewrite Ec. cbn.
        repeat split; [lia|intros ? [<-|[]]; rewrite Ec; reflexivity|].
        right. exists 0%nat, id. cbn. rewrite Ec, app_nil_r. cbn.
        repeat split. exact Er.
      * destruct (IH (log ++ [registrationCall rd])) as (n & Hn & Hl & Ha & Hr).
        exists (Datatypes.S n). cbn [length take map fst].
        rewrite Ec. cbn [fst].
        split; [lia|]. split; [rewrite Hl, <- app_assoc; reflexivity|].
        split.
        { intros id' [<-|Hin]; [rewrite Ec; reflexivity|apply Ha, Hin]. }
        destruct (fst (RegisterIdentities rest (log ++ [registrationCall rd])))
          as [e|].
        -- destruct Hr as [(id' & Hid & He)|(m & id' & -> & Hid & He)].
           ++ left. exists id'. split; assumption.
           ++ right. exists (Datatypes.S m), id'.
              cbn [take map]. rewrite Ec. cbn [fst].
              rewrite <- app_assoc in He. repeat split; assumption.
        -- lia.
Qed.

(** The two halves of the public key reach the ledger as 32 bytes each: a
    longer part is cut to its first 32 bytes, a shorter one is filled up
    with zeros, one of 32 bytes is passed as it is. *)
Theorem registrationCall_fixed_width (registrationData : RegistrationData) :
  let p1 := Part1 (PublicKey registrationData) in
  let p2 := Part2 (PublicKey registrationData) in
  let c := registrationCall registrationData in
  reg_pubKeyPart1 c = take 32 p1 ++ replicate (32 - length p1) x00 /\
  reg_pubKeyPart2 c = take 32 p2 ++ replicate (32 - length p2) x00 /\
  length (reg_pubKeyPart1 c) = 32%nat /\
  length (reg_pubKeyPart2 c) = 32%nat.
Proof.
  intros p1 p2 c. subst c p1 p2. unfold registrationCall.
  cbn [reg_pubKeyPart1 reg_pubKeyPart2].
  rewrite !copy_slice_zero_array_whole.
  repeat split; try reflexivity;
    rewrite length_app, length_take, length_replicate; lia.
Qed.

End Registration.

Section ExtraData.
Context `{ClearingDeps}.

(** The extra data hash reaches the ledger as 32 bytes whatever
    [ConsumerHash] returns: its first 32 bytes, filled up with zeros when it
    is shorter; a hash of exactly 32 bytes is passed as it is. *)
Theorem ClearReceivedPromise_extraDataHash_fixed_width
  (promise : ReceivedPromise) (issuerSig receiverSig : DecomposedSignature)
  (log : list ClearPromiseCall) :
  DecomposeSignature (IssuerSignature (embedded_IssuedPromise promise))
    = (issuerSig, None) ->
  DecomposeSignature (ReceiverSignature promise) = (receiverSig, None) ->
  exists c,
    ClearReceivedPromise promise log = (ledgerReply log c, log ++ [c]) /\
    call_extraDataHash c
    = take 32 (ConsumerHash promise)
      ++ replicate (32 - length (ConsumerHash promise)) x00 /\
    (length (ConsumerHash promise) = 32%nat ->
     call_extraDataHash c = ConsumerHash promise).
Proof.
  intros Ei Er. eexists. split.
  - apply (ClearReceivedPromise_decomposed _ _ _ _ Ei Er).
  - cbn [settlementCall call_extraDataHash].
    rewrite copy_slice_zero_array_whole.
    split; [reflexivity|]. apply fixed_width_exact.
Qed.

End ExtraData.

(** ** The reconnecting client *)

Section Reconnecting.
Context `{client.EthNode}.

Import client.

Lemma Reconnects_invariant (n : nat) :
  forall (c c' : ReconnectableEthClient) (w w' : Net)
         (errs : list (option error)) (pre cpre old : list nat),
    opened w = pre ++ old ++ [Client c] ->
    closed w = cpre ++ old ->
    Reconnects n c w = ((c', errs), w') ->
    address c' = address c /\
    length errs = n /\
    dials w' = (dials w + n)%nat /\
    exists old',
      opened w' = pre ++ old' ++ [Client c'] /\
      closed w' = cpre ++ old' /\
      length old' =
        (length old
         + length (List.filter
                     (fun e => match e with None => true | Some _ => false end)
                     errs))%nat.
Proof.
  induction n as [|n IH]; intros c c' w w' errs pre cpre old Ho Hc E.
  - cbn in E. injection E as <- <- <-.
    repeat split; [cbn; lia|]. exists old. cbn. repeat split; [assumption..|lia].
  - cbn [Reconnects] in E. unfold bind at 1 in E.
    unfold Reconnect, bind, ethclient_Dial, ethclient_Close, ret in E.
    destruct (dialError (address c) (dials w)) as [e|] eqn:Ed.
    + cbn in E.
      destruct (Reconnects n c _) as [[c1 errs1] w1] eqn:E1.
      injection E as <- <- <-.
      pose proof (fun Ho Hc => IH _ _ _ _ _ pre cpre old Ho Hc E1) as K.
      destruct (K Ho Hc) as (Ha & Hl & Hd & old' & Ho' & Hc' & Hlen).
      cbn in *. repeat split; [assumption|lia|lia|].
      exists old'. repeat split; assumption.
    + cbn in E.
      destruct (Reconnects n _ _) as [[c1 errs1] w1] eqn:E1.
      injection E as <- <- <-.
      pose proof (fun Ho Hc =>
                    IH _ _ _ _ _ pre cpre (old ++ [Client c]) Ho Hc E1) as K.
      destruct K as (Ha & Hl & Hd & old' & Ho' & Hc' & Hlen);
        [cbn; rewrite Ho, <- !app_assoc; reflexivity
        |cbn; rewrite Hc, <- !app_assoc; reflexivity|].
      cbn in *. repeat split; [assumption|lia|lia|].
      exists old'. repeat split; [assumption..|].
      rewrite length_app in Hlen. cbn in Hlen. lia.
Qed.

(** A reconnecting client keeps exactly one connection open.  After it was
    created and [Reconnect] was called any number of times, with dials that
    fail or succeed, the address is the one it was created with, the
    connections it opened are the ones it closed followed by the current
    one, in the same order, and it replaced its connection once per
    successful call: a failed [Reconnect] closes nothing and keeps the
    client in place. *)
Theorem Reconnects_keep_one_open (addr : string) (n : nat)
  (c c' : ReconnectableEthClient) (w0 w1 w' : Net)
  (errs : list (option error)) :
  NewReconnectableEthClient addr w0 = ((Some c, None), w1) ->
  Reconnects n c w1 = ((c', errs), w') ->
  address c' = addr /\
  length errs = n /\
  exists old,
    opened w' = opened w0 ++ old ++ [Client c'] /\
    closed w' = closed w0 ++ old /\
    length old =
      length (List.filter
                (fun e => match e with None => true | Some _ => false end)
                errs).
Proof.
  intros En Er.
  unfold NewReconnectableEthClient, bind, ethclient_Dial, ret in En.
  destruct (dialError addr (dials w0)) as [e|]; [discriminate|].
  injection En as <- <-.
  pose proof (fun Ho Hc =>
                Reconnects_invariant n _ _ _ _ _ (opened w0) (closed w0) []
                  Ho Hc Er) as K.
  destruct K as (Ha & Hl & _ & old & Ho & Hc & Hlen);
    [reflexivity|cbn; rewrite app_nil_r; reflexivity|].
  repeat split; [assumption..|].
  exists old. repeat split; assumption.
Qed.

End Reconnecting.

(** ** Dry runs *)

Lemma prefix_append (p r : string) : String.prefix p (p ++ r) = true.
Proof.
  induction p as [|a p IH]; cbn; [destruct r; reflexivity|].
  destruct (ascii_dec a a); [exact IH|congruence].
Qed.

Lemma Contains_prefix (s p : string) :
  String.prefix p s = true -> client.Contains s p = true.
Proof.
  intros E. destruct s; cbn [client.Contains]; rewrite E; reflexivity.
Qed.

Lemma substring_whole (s : string) :
  String.substring 0 (String.length s) s = s.
Proof. induction s as [|a s IH]; cbn; [reflexivity|]. rewrite IH. reflexivity. Qed.

Lemma TrimPrefix_append (p r : string) : client.TrimPrefix (p ++ r) p = r.
Proof.
  unfold client.TrimPrefix. rewrite prefix_append.
  induction p as [|a p IH]; cbn.
  - rewrite Nat.sub_0_r. apply substring_whole.
  - exact IH.
Qed.

Section DryRuns.
Context `{client.Node}.

Import client.

Lemma Estimate_zero (cwdr : WithDryRuns) (req : Request) (log : list Event) :
  getGasLimit req = 0 -> Estimate cwdr req log = ((0, None), log).
Proof. intros E. unfold Estimate. rewrite E. reflexivity. Qed.

(** Every write method that estimates first sends its transaction only
    after a dry run that passed, or with a gas limit of 0, where no dry run
    is made at all.  When the estimator cannot be built, or the estimation
    fails, the method returns that error (the estimation's under the
    message [could not estimate gas]) and nothing is sent. *)
Theorem guarded_writer_sends_after_dry_run (m : BCMethod)
  (write : WithDryRuns -> Request
           -> State (list Event) (option types_Transaction * option goerror))
  (cwdr : WithDryRuns) (req : Request) (log : list Event) :
  In (m, write) guardedWriters ->
  (getGasLimit req = 0 ->
   write cwdr req log = (bcReply log m req, log ++ [Sent m req]))
  /\
  (getGasLimit req <> 0 ->
   forall estimator e,
     toEstimator req (ethClient cwdr) = (estimator, Some e) ->
     write cwdr req log = ((None, Some e), log))
  /\
  (getGasLimit req <> 0 ->
   forall estimator gas e,
     toEstimator req (ethClient cwdr) = (estimator, None) ->
     estimateReply log estimator (toEstimateOps req) = (gas, Some e) ->
     write cwdr req log
     = ((None, Some (withMessage "could not estimate gas" e)),
        log ++ [Estimated estimator (toEstimateOps req)]))
  /\
  (getGasLimit req <> 0 ->
   forall estimator gas,
     toEstimator req (ethClient cwdr) = (estimator, None) ->
     estimateReply log estimator (toEstimateOps req) = (gas, None) ->
     write cwdr req log
     = (bcReply (log ++ [Estimated estimator (toEstimateOps req)]) m req,
        log ++ [Estimated estimator (toEstimateOps req)] ++ [Sent m req])).
Proof.
  intros Hin.
  assert (Hw : write cwdr req
               = (do r <- Estimate cwdr req;
                  match snd r with
                  | Some err => ret (None, Some err)
                  | None => bc_call m req
                  end)).
  { cbn in Hin.
    repeat (destruct Hin as [Hin|Hin]; [injection Hin as <- <-; reflexivity|]).
    destruct Hin. }
  rewrite Hw. unfold Estimate. unfold bind, estimator_Estimate, bc_call, ret.
  split; [intros ->; reflexivity|].
  split; [|split]; intros Hg; apply Z.eqb_neq in Hg; rewrite Hg.
  - intros estimator e ->. reflexivity.
  - intros estimator gas e Ht Hr. rewrite Ht. cbn iota beta.
    rewrite Hr. reflexivity.
  - intros estimator gas Ht Hr. rewrite Ht. cbn iota beta.
    rewrite Hr. cbn. rewrite <- app_assoc. reflexivity.
Qed.

(** [TransferEth] never estimates: whatever the gas limit, the transfer goes
    straight to the node. *)
Lemma TransferEth_no_dry_run (cwdr : WithDryRuns) (etr : Request)
  (log : list Event) :
  TransferEth cwdr etr log
  = (bcReply log bc_TransferEth etr, log ++ [Sent bc_TransferEth etr]).
Proof. reflexivity. Qed.

(** [DryRun] sends nothing and reports what the estimation reported, with
    one change: an error whose cause is an [rpc.Error] with code -32000 and
    a message that starts with the revert message and a reason comes back
    as [ErrorTransactionReverted] with that reason, its text the message of
    the cause without what was wrapped around it.  An error of another
    cause, or with another code, comes back as it is. *)
Theorem DryRun_classifies_revert (cwdr : WithDryRuns) (req : Request)
  (log log' : list Event) (gas : Z) (err : goerror) :
  Estimate cwdr req log = ((gas, Some err), log') ->
  (forall reason,
      Cause err = rpcError (-32000) (revertMessage ++ " " ++ reason) ->
      DryRun cwdr req log
      = (Some (ErrorTransactionReverted (-32000)
                 (revertMessage ++ " " ++ reason) reason), log')
      /\ Error (ErrorTransactionReverted (-32000)
                  (revertMessage ++ " " ++ reason) reason)
         = Error (Cause err))
  /\
  (forall code message,
      Cause err = rpcError code message -> code <> -32000 ->
      DryRun cwdr req log = (Some err, log'))
  /\
  (forall code message,
      Cause err = rpcError code message ->
      Contains message revertMessage = false ->
      DryRun cwdr req log = (Some err, log'))
  /\
  (forall message,
      Cause err = otherError message ->
      DryRun cwdr req log = (Some err, log')).
Proof.
  intros E. unfold DryRun, bind. rewrite E. cbn [snd].
  split; [|split; [|split]].
  - intros reason Hc. rewrite Hc. cbn [Error]. split; [|reflexivity].
    rewrite Z.eqb_refl.
    rewrite (Contains_prefix _ _ (prefix_append revertMessage (" " ++ reason))).
    cbn [andb].
    replace (revertMessage ++ " " ++ reason)%string
      with ((revertMessage ++ " ") ++ reason)%string at 2
      by (unfold revertMessage; reflexivity).
    rewrite TrimPrefix_append. reflexivity.
  - intros code message Hc Hn. rewrite Hc.
    apply Z.eqb_neq in Hn. rewrite Hn. reflexivity.
  - intros code message Hc Hn. rewrite Hc, Hn, andb_false_r. reflexivity.
  - intros message Hc. rewrite Hc. reflexivity.
Qed.

(** [DryRun] returns nil exactly when the estimation does, and in
    particular for every request with a gas limit of 0, which it does not
    estimate. *)
Theorem DryRun_nil_iff_Estimate_nil (cwdr : WithDryRuns) (req : Request)
  (log : list Event) :
  (fst (DryRun cwdr req log) = None <->
   snd (fst (Estimate cwdr req log)) = None) /\
  snd (DryRun cwdr req log) = snd (Estimate cwdr req log) /\
  (forall e, In e (snd (DryRun cwdr req log)) ->
             In e log \/ exists est ops, e = Estimated est ops).
Proof.
  unfold DryRun, bind.
  destruct (Estimate cwdr req log) as [[gas [err|]] log'] eqn:E; cbn [fst snd].
  - assert (Hr : exists err', (match Cause err with
                   | rpcError code message =>
                       if (code =? -32000) && Contains message revertMessage
                       then ret (Some (ErrorTransactionReverted code message
                                  (TrimPrefix message (revertMessage ++ " "))))
                       else ret (Some err)
                   | _ => ret (Some err)
                   end) log' = (Some err', log')).
    { destruct (Cause err) as [code message| | |]; try (eexists; reflexivity).
      destruct ((code =? -32000) && Contains message revertMessage);
        eexists; reflexivity. }
    destruct Hr as [err' ->]. cbn.
    split; [split; discriminate|]. split; [reflexivity|].
    revert E. unfold Estimate, estimator_Estimate, bind, ret.
    destruct (getGasLimit req =? 0); [discriminate|].
    destruct (toEstimator req (ethClient cwdr)) as [est [e0|]].
    + intros E. injection E as _ _ <-. tauto.
    + intros E. injection E as _ _ <-. intros e Hin.
      apply in_app_or in Hin as [Hin|[<-|[]]]; eauto.
  - cbn. split; [tauto|]. split; [reflexivity|].
    revert E. unfold Estimate, estimator_Estimate, bind, ret.
    destruct (getGasLimit req =? 0); [intros E; injection E as _ <-; tauto|].
    destruct (toEstimator req (ethClient cwdr)) as [est [e0|]];
      [discriminate|].
    intros E. injection E as _ _ <-. intros e Hin.
    apply in_app_or in Hin as [Hin|[<-|[]]]; eauto.
Qed.

End DryRuns.

(** ** The further properties on the small instance *)

Example promisePreimage_injective_demo :
  wf_Promise (demoPromise 1 (-1)) /\
  (promisePreimage (demoPromise 1 (-1)) = promisePreimage (demoPromise 1 (-1))
   -> demoPromise 1 (-1) = demoPromise 1 (-1)).
Proof.
  assert (Hw : wf_Promise (demoPromise 1 (-1))).
  { repeat split; cbn; unfold int64_range; lia. }
  split; [exact Hw|].
  apply (@promisePreimage_injective demoCrypto _ _ Hw Hw).
Defined.

Example counterSignPreimage_injective_demo :
  length (HashBytes (demoPromise 1 1000)) = 32%nat /\
  (counterSignPreimage (HashBytes (demoPromise 1 1000)) demoReceiver
   = counterSignPreimage (HashBytes (demoPromise 1 1000)) demoReceiver ->
   HashBytes (demoPromise 1 1000) = HashBytes (demoPromise 1 1000)
   /\ demoReceiver = demoReceiver).
Proof.
  split; [reflexivity|].
  apply (@counterSignPreimage_injective demoCrypto
           (HashBytes (demoPromise 1 1000)) (HashBytes (demoPromise 1 1000))
           demoReceiver demoReceiver eq_refl).
Defined.

Example SignByReceiver_signs_bound_hash_demo :
  SignByReceiver (demoIssued 1 1000) demoAgent
  = (Some (demoReceived 1 1000), None).
Proof.
  apply (@SignByReceiver_signs_bound_hash demoCrypto (demoIssued 1 1000)
           demoAgent (addressOf (PrivateKey demoPayer))
           (ReceiverSignature (demoReceived 1 1000))); run.
Defined.

(** A withdrawal of -1: the request and the call carry 2^256 - 1, the
    number the signed 32 bytes of 0xff denote. *)
Example NewWithdrawRequest_negative_demo :
  balances.NewWithdrawRequest demoPayer (-1)
  = (Some (demoWithdrawRequest (-1)), None) /\
  balances.Amount (demoWithdrawRequest (-1)) = 2 ^ 256 - 1 /\
  U256 (big_NewInt (-1)) = replicate 32 xff /\
  exists c,
    balances.Withdraw (demoWithdrawRequest (-1)) [] = (None, [c]) /\
    balances.call_amount c = 2 ^ 256 - 1.
Proof.
  assert (E : balances.NewWithdrawRequest demoPayer (-1)
              = (Some (demoWithdrawRequest (-1)), None)) by run.
  split; [exact E|]. split; [run|]. split; [run|].
  destruct (@NewWithdrawRequest_then_Withdraw demoCrypto demoBalances
              demoPayer (-1) (demoWithdrawRequest (-1)) [] E)
    as (sig & _ & _ & _ & _ & Ew).
  eexists. split; [exact Ew|reflexivity].
Defined.

(** A consumer hash of 33 bytes reaches the ledger cut to 32. *)
Example ClearReceivedPromise_extraDataHash_demo :
  length (@ConsumerHash demoLongHashDeps (demoReceived 1 1000)) = 33%nat /\
  exists c,
    @ClearReceivedPromise demoLongHashDeps (demoReceived 1 1000) []
    = (None, [c]) /\
    call_extraDataHash c = replicate 32 x07.
Proof.
  split; [reflexivity|].
  destruct (@ClearReceivedPromise_extraDataHash_fixed_width demoLongHashDeps
              (demoReceived 1 1000) (demoIssuerSig 1 1000)
              (demoReceiverSig 1 1000) [])
    as (c & Ec & Eh & _); [run|run|].
  exists c. split; [exact Ec|]. rewrite Eh. reflexivity.
Defined.

(** Created on dial 0, then three calls of [Reconnect]: dial 1 fails, dial
    2 succeeds, dial 3 fails.  Connection 0 is closed, 2 is current. *)
Example Reconnects_demo :
  exists c w1 c' w',
    client.NewReconnectableEthClient "ws://node" demoNet
    = ((Some c, None), w1) /\
    client.Reconnects 3 c w1
    = ((c', [Some "ethereum client failed to dial: connection refused"%string;
             None;
             Some "ethereum client failed to dial: connection refused"%string]),
       w') /\
    client.Client c' = 2%nat /\
    client.opened w' = [0; 2]%nat /\
    client.closed w' = [0]%nat /\
    client.address c' = "ws://node"%string.
Proof.
  eexists _, _, _, _.
  assert (En : client.NewReconnectableEthClient "ws://node" demoNet
               = ((Some {| client.address := "ws://node";
                           client.client_handle := 0 |}, None),
                  {| client.dials := 1; client.opened := [0%nat];
                     client.closed := [] |})) by reflexivity.
  assert (Er : client.Reconnects 3
                 {| client.address := "ws://node"; client.client_handle := 0 |}
                 {| client.dials := 1; client.opened := [0%nat];
                    client.closed := [] |}
               = (({| client.address := "ws://node";
                      client.client_handle := 2 |},
                   [Some "ethereum client failed to dial: connection refused"%string;
                    None;
                    Some "ethereum client failed to dial: connection refused"%string]),
                  {| client.dials := 4; client.opened := [0; 2]%nat;
                     client.closed := [0%nat] |})) by reflexivity.
  split; [exact En|]. split; [exact Er|].
  destruct (@Reconnects_keep_one_open demoEthNode _ _ _ _ _ _ _ _ En Er)
    as (Ha & _ & _).
  split; [reflexivity|]. split; [reflexivity|]. split; [reflexivity|].
  exact Ha.
Defined.

(** A settlement with gas limit 21000 on a node whose estimations revert:
    the estimation is the only thing that reaches the node. *)
Example SettlePromise_dry_run_demo :
  client.SettlePromise demoDryRuns (21000 : Z) []
  = ((None, Some (client.withMessage "could not estimate gas" demoRevert)),
     [client.Estimated tt tt]) /\
  client.SettlePromise demoDryRuns (0 : Z) []
  = ((Some tt, None), [client.Sent client.bc_SettlePromise (0 : Z)]).
Proof.
  destruct (@guarded_writer_sends_after_dry_run demoRequests
              demoRevertingNode client.bc_SettlePromise client.SettlePromise
              demoDryRuns (21000 : Z) [])
    as (_ & _ & Hfail & _); [cbn; tauto|].
  destruct (@guarded_writer_sends_after_dry_run demoRequests
              demoRevertingNode client.bc_SettlePromise client.SettlePromise
              demoDryRuns (0 : Z) [])
    as (Hzero & _); [cbn; tauto|].
  split.
  - eapply Hfail; [discriminate|reflexivity|reflexivity].
  - apply Hzero. reflexivity.
Defined.

Example DryRun_revert_demo :
  client.DryRun demoDryRuns (21000 : Z) []
  = (Some (client.ErrorTransactionReverted (-32000)
             "VM Exception while processing transaction: revert not enough funds"
             "not enough funds"),
     [client.Estimated tt tt]).
Proof.
  destruct (@DryRun_classifies_revert demoRequests demoRevertingNode
              demoDryRuns (21000 : Z) []
              [@client.Estimated demoRequests tt tt] 0
              (client.withMessage "could not estimate gas" demoRevert)
              eq_refl) as (Hrev & _).
  apply (Hrev "not enough funds"%string). reflexivity.
Defined.
